(** * The 4-wide AltiVec vector layer of VPIC ([src/util/v4/v4_altivec.hxx])

    A shallow embedding of the [v4], [v4int] and [v4float] classes and of the
    AltiVec intrinsics they are written with, followed by the properties of
    the transposed memory accessors, of the cross-lane operations, of the
    boolean-mask operations and of the refined reciprocal.

    A 128-bit register is four 32-bit elements; element 0 is the leftmost
    one and sits at the lowest address (AltiVec is big-endian), and each
    element is four bytes, most significant first. *)

From Stdlib Require Import ZArith List Bool Lia Reals Lra.
From Stdlib Require Import Strings.Byte Floats.SpecFloat.
Import ListNotations.
Local Open Scope Z_scope.

(** ** Bytes and 32-bit elements *)

Definition byte_unsigned (x : byte) : Z := Z.of_N (Byte.to_N x).

Definition byte_of_Z (z : Z) : byte :=
  match Byte.of_N (Z.to_N (z mod 256)) with
  | Some x => x
  | None => x00
  end.

(** One 32-bit element of a register, as its four bytes. *)
Record lane : Set := Lane { by0 : byte; by1 : byte; by2 : byte; by3 : byte }.

(** The register types [__vector float], [__vector int], [__vector unsigned
    int] and [__vector unsigned char] are one 128-bit register under four
    views; the casts between them relabel the bits. *)
Record vec : Set := Vec { e0 : lane; e1 : lane; e2 : lane; e3 : lane }.

Definition _v4_float := vec.
Definition _v4_int := vec.
Definition _v4_uint := vec.

(** The unsigned and the two's complement value of an element. *)
Definition lane_unsigned (x : lane) : Z :=
  byte_unsigned (by0 x) * 2 ^ 24 + byte_unsigned (by1 x) * 2 ^ 16
  + byte_unsigned (by2 x) * 2 ^ 8 + byte_unsigned (by3 x).

Definition lane_signed (x : lane) : Z :=
  let u := lane_unsigned x in if u <? 2 ^ 31 then u else u - 2 ^ 32.

(** The element that holds [z] modulo [2^32]. *)
Definition lane_of_Z (z : Z) : lane :=
  Lane (byte_of_Z (Z.shiftr z 24)) (byte_of_Z (Z.shiftr z 16))
       (byte_of_Z (Z.shiftr z 8)) (byte_of_Z z).

(** [(_v4_int){ i0, i1, i2, i3 }] *)
Definition vec_of_ints (i0 i1 i2 i3 : Z) : vec :=
  Vec (lane_of_Z i0) (lane_of_Z i1) (lane_of_Z i2) (lane_of_Z i3).

(** Element [n] of a register; the union [{ float f[4]; _v4_float v; }] of
    the source reads it as [t.f[n]]. *)
Definition elt (x : vec) (n : Z) : lane :=
  match n with
  | 0 => e0 x
  | 1 => e1 x
  | 2 => e2 x
  | _ => e3 x
  end.

Definition lane_bytes (x : lane) : list byte := [by0 x; by1 x; by2 x; by3 x].

Definition lane_of_bytes (l : list byte) : lane :=
  Lane (nth 0 l x00) (nth 1 l x00) (nth 2 l x00) (nth 3 l x00).

(** The sixteen bytes of a register, byte 0 first. *)
Definition vec_bytes (x : vec) : list byte :=
  lane_bytes (e0 x) ++ lane_bytes (e1 x) ++ lane_bytes (e2 x) ++ lane_bytes (e3 x).

Definition vec_of_bytes (l : list byte) : vec :=
  Vec (lane_of_bytes l) (lane_of_bytes (skipn 4 l))
      (lane_of_bytes (skipn 8 l)) (lane_of_bytes (skipn 12 l)).

(** ** AltiVec data-movement intrinsics *)

(** [vec_mergeh(a,b)] interleaves the high (left) halves: a0 b0 a1 b1. *)
Definition vec_mergeh (a b : vec) : vec := Vec (e0 a) (e0 b) (e1 a) (e1 b).

(** [vec_mergel(a,b)] interleaves the low (right) halves: a2 b2 a3 b3. *)
Definition vec_mergel (a b : vec) : vec := Vec (e2 a) (e2 b) (e3 a) (e3 b).

(** [vec_splat(a,n)] copies element [n] to every element. *)
Definition vec_splat (a : vec) (n : Z) : vec :=
  Vec (elt a n) (elt a n) (elt a n) (elt a n).

(** [vec_perm(a,b,c)]: byte [j] of the result is byte [c[j] & 0x1f] of the
    32 bytes of [a] followed by [b]. *)
Definition vec_perm (a b c : vec) : vec :=
  vec_of_bytes
    (map (fun k => nth (Z.to_nat (Z.land (byte_unsigned k) 31))
                       (vec_bytes a ++ vec_bytes b) x00)
         (vec_bytes c)).

(** ** The [v4] base class *)

Record v4 : Set := V4 { v : _v4_float }.

Definition v4int := v4.
Definition v4float := v4.

(** [swap(a,b)]; the two references come back as a pair. *)
Definition swap (a b : v4) : v4 * v4 :=
  let t := v a in
  let a := V4 (v b) in
  let b := V4 t in
  (a, b).

(** [transpose(a,b,c,d)] works in place on its four references; the
    embedding returns their final values. *)
Definition transpose (a b c d : v4) : v4 * v4 * v4 * v4 :=
  let a0 := v a in
  let b0 := v b in
  let c1 := v c in
  let d1 := v d in
  (* Step 1: interleave top and bottom half *)
  let a1 := vec_mergeh a0 c1 in
  let b1 := vec_mergeh b0 d1 in
  let c1 := vec_mergel a0 c1 in
  let d1 := vec_mergel b0 d1 in
  (* Step 2: interleave even and odd rows *)
  (V4 (vec_mergeh a1 b1), V4 (vec_mergel a1 b1),
   V4 (vec_mergeh c1 d1), V4 (vec_mergel c1 d1)).

(** Vector [i] of four. *)
Definition sel4 (q : v4 * v4 * v4 * v4) (i : Z) : v4 :=
  let '(a, b, c, d) := q in
  match i with
  | 0 => a
  | 1 => b
  | 2 => c
  | _ => d
  end.

(** ** The permutation table *)

(** The macro [P(i0,i1,i2,i3)]: the byte indices that move element [i0] to
    element 0, [i1] to element 1, [i2] to element 2 and [i3] to element 3. *)
Definition P (i0 i1 i2 i3 : Z) : vec :=
  vec_of_bytes
    (map byte_of_Z
         [ 4*i0; 4*i0+1; 4*i0+2; 4*i0+3;
           4*i1; 4*i1+1; 4*i1+2; 4*i1+3;
           4*i2; 4*i2+1; 4*i2+2; 4*i2+3;
           4*i3; 4*i3+1; 4*i3+2; 4*i3+3 ]).

Definition _perm : list vec :=
  [
    P 0 0 0 0; P 1 0 0 0; P 2 0 0 0; P 3 0 0 0;
    P 0 1 0 0; P 1 1 0 0; P 2 1 0 0; P 3 1 0 0;
    P 0 2 0 0; P 1 2 0 0; P 2 2 0 0; P 3 2 0 0;
    P 0 3 0 0; P 1 3 0 0; P 2 3 0 0; P 3 3 0 0;
    P 0 0 1 0; P 1 0 1 0; P 2 0 1 0; P 3 0 1 0;
    P 0 1 1 0; P 1 1 1 0; P 2 1 1 0; P 3 1 1 0;
    P 0 2 1 0; P 1 2 1 0; P 2 2 1 0; P 3 2 1 0;
    P 0 3 1 0; P 1 3 1 0; P 2 3 1 0; P 3 3 1 0;
    P 0 0 2 0; P 1 0 2 0; P 2 0 2 0; P 3 0 2 0;
    P 0 1 2 0; P 1 1 2 0; P 2 1 2 0; P 3 1 2 0;
    P 0 2 2 0; P 1 2 2 0; P 2 2 2 0; P 3 2 2 0;
    P 0 3 2 0; P 1 3 2 0; P 2 3 2 0; P 3 3 2 0;
    P 0 0 3 0; P 1 0 3 0; P 2 0 3 0; P 3 0 3 0;
    P 0 1 3 0; P 1 1 3 0; P 2 1 3 0; P 3 1 3 0;
    P 0 2 3 0; P 1 2 3 0; P 2 2 3 0; P 3 2 3 0;
    P 0 3 3 0; P 1 3 3 0; P 2 3 3 0; P 3 3 3 0;
    P 0 0 0 1; P 1 0 0 1; P 2 0 0 1; P 3 0 0 1;
    P 0 1 0 1; P 1 1 0 1; P 2 1 0 1; P 3 1 0 1;
    P 0 2 0 1; P 1 2 0 1; P 2 2 0 1; P 3 2 0 1;
    P 0 3 0 1; P 1 3 0 1; P 2 3 0 1; P 3 3 0 1;
    P 0 0 1 1; P 1 0 1 1; P 2 0 1 1; P 3 0 1 1;
    P 0 1 1 1; P 1 1 1 1; P 2 1 1 1; P 3 1 1 1;
    P 0 2 1 1; P 1 2 1 1; P 2 2 1 1; P 3 2 1 1;
    P 0 3 1 1; P 1 3 1 1; P 2 3 1 1; P 3 3 1 1;
    P 0 0 2 1; P 1 0 2 1; P 2 0 2 1; P 3 0 2 1;
    P 0 1 2 1; P 1 1 2 1; P 2 1 2 1; P 3 1 2 1;
    P 0 2 2 1; P 1 2 2 1; P 2 2 2 1; P 3 2 2 1;
    P 0 3 2 1; P 1 3 2 1; P 2 3 2 1; P 3 3 2 1;
    P 0 0 3 1; P 1 0 3 1; P 2 0 3 1; P 3 0 3 1;
    P 0 1 3 1; P 1 1 3 1; P 2 1 3 1; P 3 1 3 1;
    P 0 2 3 1; P 1 2 3 1; P 2 2 3 1; P 3 2 3 1;
    P 0 3 3 1; P 1 3 3 1; P 2 3 3 1; P 3 3 3 1;
    P 0 0 0 2; P 1 0 0 2; P 2 0 0 2; P 3 0 0 2;
    P 0 1 0 2; P 1 1 0 2; P 2 1 0 2; P 3 1 0 2;
    P 0 2 0 2; P 1 2 0 2; P 2 2 0 2; P 3 2 0 2;
    P 0 3 0 2; P 1 3 0 2; P 2 3 0 2; P 3 3 0 2;
    P 0 0 1 2; P 1 0 1 2; P 2 0 1 2; P 3 0 1 2;
    P 0 1 1 2; P 1 1 1 2; P 2 1 1 2; P 3 1 1 2;
    P 0 2 1 2; P 1 2 1 2; P 2 2 1 2; P 3 2 1 2;
    P 0 3 1 2; P 1 3 1 2; P 2 3 1 2; P 3 3 1 2;
    P 0 0 2 2; P 1 0 2 2; P 2 0 2 2; P 3 0 2 2;
    P 0 1 2 2; P 1 1 2 2; P 2 1 2 2; P 3 1 2 2;
    P 0 2 2 2; P 1 2 2 2; P 2 2 2 2; P 3 2 2 2;
    P 0 3 2 2; P 1 3 2 2; P 2 3 2 2; P 3 3 2 2;
    P 0 0 3 2; P 1 0 3 2; P 2 0 3 2; P 3 0 3 2;
    P 0 1 3 2; P 1 1 3 2; P 2 1 3 2; P 3 1 3 2;
    P 0 2 3 2; P 1 2 3 2; P 2 2 3 2; P 3 2 3 2;
    P 0 3 3 2; P 1 3 3 2; P 2 3 3 2; P 3 3 3 2;
    P 0 0 0 3; P 1 0 0 3; P 2 0 0 3; P 3 0 0 3;
    P 0 1 0 3; P 1 1 0 3; P 2 1 0 3; P 3 1 0 3;
    P 0 2 0 3; P 1 2 0 3; P 2 2 0 3; P 3 2 0 3;
    P 0 3 0 3; P 1 3 0 3; P 2 3 0 3; P 3 3 0 3;
    P 0 0 1 3; P 1 0 1 3; P 2 0 1 3; P 3 0 1 3;
    P 0 1 1 3; P 1 1 1 3; P 2 1 1 3; P 3 1 1 3;
    P 0 2 1 3; P 1 2 1 3; P 2 2 1 3; P 3 2 1 3;
    P 0 3 1 3; P 1 3 1 3; P 2 3 1 3; P 3 3 1 3;
    P 0 0 2 3; P 1 0 2 3; P 2 0 2 3; P 3 0 2 3;
    P 0 1 2 3; P 1 1 2 3; P 2 1 2 3; P 3 1 2 3;
    P 0 2 2 3; P 1 2 2 3; P 2 2 2 3; P 3 2 2 3;
    P 0 3 2 3; P 1 3 2 3; P 2 3 2 3; P 3 3 2 3;
    P 0 0 3 3; P 1 0 3 3; P 2 0 3 3; P 3 0 3 3;
    P 0 1 3 3; P 1 1 3 3; P 2 1 3 3; P 3 1 3 3;
    P 0 2 3 3; P 1 2 3 3; P 2 2 3 3; P 3 2 3 3;
    P 0 3 3 3; P 1 3 3 3; P 2 3 3 3; P 3 3 3 3
  ].

(** [_perm[i]]. An index outside the table is undefined in the source; the
    embedding reads the first entry there. *)
Definition perm_at (i : Z) : vec := nth (Z.to_nat i) _perm (P 0 0 0 0).

(** ** Cross-lane operations of [v4] *)

Definition splat (a : v4) (n : Z) : v4 :=
  V4 (vec_splat (v a) n).

Definition shuffle (a : v4) (i0 i1 i2 i3 : Z) : v4 :=
  let a_v := v a in
  V4 (vec_perm a_v a_v (perm_at (i0 + i1*4 + i2*16 + i3*64))).

(** ** Memory *)

(** Byte-addressed memory. *)
Definition mem := Z -> byte.

Definition load_bytes (m : mem) (p : Z) (n : nat) : list byte :=
  map (fun k => m (p + Z.of_nat k)) (seq 0 n).

Definition store_bytes (m : mem) (p : Z) (l : list byte) : mem :=
  fun q =>
    if (p <=? q) && (q <? p + Z.of_nat (length l))
    then nth (Z.to_nat (q - p)) l x00
    else m q.

(** [vec_ld], [vec_st] and [vec_stl] access the 16 bytes at the effective
    address [(off + p) & ~0xf]: the low four address bits are ignored. *)
Definition vec_ea (off p : Z) : Z := Z.land (off + p) (Z.lnot 15).

Definition vec_ld (off p : Z) (m : mem) : vec :=
  vec_of_bytes (load_bytes m (vec_ea off p) 16).

Definition vec_st (x : vec) (off p : Z) (m : mem) : mem :=
  store_bytes m (vec_ea off p) (vec_bytes x).

(** [((const float * )p)[k]] and [((float * )p)[k] = x]. *)
Definition load_float (p k : Z) (m : mem) : lane :=
  lane_of_bytes (load_bytes m (p + 4*k) 4).

Definition store_float (p k : Z) (x : lane) (m : mem) : mem :=
  store_bytes m (p + 4*k) (lane_bytes x).

Definition load_4x1 (p : Z) (m : mem) : v4 := V4 (vec_ld 0 p m).

Definition store_4x1 (a : v4) (p : Z) (m : mem) : mem := vec_st (v a) 0 p m.

(** ** Transposed memory access *)

Definition load_4x1_tr (pa pb pc pd : Z) (m : mem) : v4 :=
  V4 (Vec (load_float pa 0 m) (load_float pb 0 m)
          (load_float pc 0 m) (load_float pd 0 m)).

Definition load_4x2_tr (pa pb pc pd : Z) (m : mem) : v4 * v4 :=
  (V4 (Vec (load_float pa 0 m) (load_float pb 0 m)
           (load_float pc 0 m) (load_float pd 0 m)),
   V4 (Vec (load_float pa 1 m) (load_float pb 1 m)
           (load_float pc 1 m) (load_float pd 1 m))).

Definition load_4x4_tr (pa pb pc pd : Z) (m : mem) : v4 * v4 * v4 * v4 :=
  let a0 := vec_ld 0 pa m in
  let b0 := vec_ld 0 pb m in
  let c1 := vec_ld 0 pc m in
  let d1 := vec_ld 0 pd m in
  (* Step 1: interleave top and bottom half *)
  let a1 := vec_mergeh a0 c1 in
  let b1 := vec_mergeh b0 d1 in
  let c1 := vec_mergel a0 c1 in
  let d1 := vec_mergel b0 d1 in
  (* Step 2: interleave even and odd rows *)
  (V4 (vec_mergeh a1 b1), V4 (vec_mergel a1 b1),
   V4 (vec_mergeh c1 d1), V4 (vec_mergel c1 d1)).

Definition store_4x1_tr (a : v4) (pa pb pc pd : Z) (m : mem) : mem :=
  let t := v a in
  let m := store_float pa 0 (elt t 0) m in
  let m := store_float pb 0 (elt t 1) m in
  let m := store_float pc 0 (elt t 2) m in
  store_float pd 0 (elt t 3) m.

(** [a.v] for the [v4] object at address [a]: its 16 bytes. *)
Definition v4_at (a : Z) (m : mem) : v4 :=
  V4 (vec_of_bytes (load_bytes m a 16)).

(** [store_4x2_tr] takes [a] and [b] by constant reference, here the
    addresses of the two objects: [a.v] is read on entry, [b.v] after the
    four stores of the lanes of [a]. *)
Definition store_4x2_tr (a b : Z) (pa pb pc pd : Z) (m : mem) : mem :=
  let t := v (v4_at a m) in
  let m := store_float pa 0 (elt t 0) m in
  let m := store_float pb 0 (elt t 1) m in
  let m := store_float pc 0 (elt t 2) m in
  let m := store_float pd 0 (elt t 3) m in
  let t := v (v4_at b m) in
  let m := store_float pa 1 (elt t 0) m in
  let m := store_float pb 1 (elt t 1) m in
  let m := store_float pc 1 (elt t 2) m in
  store_float pd 1 (elt t 3) m.

Definition store_4x4_tr (a b c d : v4) (pa pb pc pd : Z) (m : mem) : mem :=
  let a0 := v a in
  let b0 := v b in
  let c1 := v c in
  let d1 := v d in
  (* Step 1: interleave top and bottom half *)
  let a1 := vec_mergeh a0 c1 in
  let b1 := vec_mergeh b0 d1 in
  let c1 := vec_mergel a0 c1 in
  let d1 := vec_mergel b0 d1 in
  (* Step 2: interleave even and odd rows *)
  let m := vec_st (vec_mergeh a1 b1) 0 pa m in
  let m := vec_st (vec_mergel a1 b1) 0 pb m in
  let m := vec_st (vec_mergeh c1 d1) 0 pc m in
  vec_st (vec_mergel c1 d1) 0 pd m.

(** ** The single-precision view of an element *)

(** The IEEE-754 binary32 number an element encodes: bit 31 is the sign,
    bits 30..23 the biased exponent and bits 22..0 the fraction. *)
Definition b32_decode (x : lane) : spec_float :=
  let u := lane_unsigned x in
  let s := Z.testbit u 31 in
  let e := Z.land (Z.shiftr u 23) 255 in
  let f := Z.land u (Z.ones 23) in
  if e =? 0 then
    match f with
    | Zpos p => S754_finite s p (-149)
    | _ => S754_zero s
    end
  else if e =? 255 then
    if f =? 0 then S754_infinity s else S754_nan
  else
    match f + 2 ^ 23 with
    | Zpos p => S754_finite s p (e - 150)
    | _ => S754_nan
    end.

(** The element that encodes a binary32 number; a NaN is encoded as the
    quiet NaN [0x7fc00000]. *)
Definition b32_encode (x : spec_float) : lane :=
  let sign (s : bool) := if s then 2 ^ 31 else 0 in
  lane_of_Z
    match x with
    | S754_zero s => sign s
    | S754_infinity s => sign s + 0x7f800000
    | S754_nan => 0x7fc00000
    | S754_finite s m e =>
        if Zpos m <? 2 ^ 23 then sign s + Zpos m
        else sign s + Z.shiftl (e + 150) 23 + (Zpos m - 2 ^ 23)
    end.

(** The [float] value of a small integer literal such as [3.0f]. *)
Definition float_of_Z (n : Z) : lane :=
  b32_encode (binary_normalize 24 128 n 0 false).

(** [(_v4_float){ f0, f1, f2, f3 }] *)
Definition vec_of_floats (f0 f1 f2 f3 : lane) : vec := Vec f0 f1 f2 f3.

(** ** Elementwise intrinsics *)

Definition vmap (f : lane -> lane) (a : vec) : vec :=
  Vec (f (e0 a)) (f (e1 a)) (f (e2 a)) (f (e3 a)).

Definition vmap2 (f : lane -> lane -> lane) (a b : vec) : vec :=
  Vec (f (e0 a) (e0 b)) (f (e1 a) (e1 b)) (f (e2 a) (e2 b)) (f (e3 a) (e3 b)).

Definition vmap3 (f : lane -> lane -> lane -> lane) (a b c : vec) : vec :=
  Vec (f (e0 a) (e0 b) (e0 c)) (f (e1 a) (e1 b) (e1 c))
      (f (e2 a) (e2 b) (e2 c)) (f (e3 a) (e3 b) (e3 c)).

Definition lane_bitop (op : Z -> Z -> Z) (x y : lane) : lane :=
  lane_of_Z (op (lane_unsigned x) (lane_unsigned y)).

Definition vec_and : vec -> vec -> vec := vmap2 (lane_bitop Z.land).
Definition vec_or : vec -> vec -> vec := vmap2 (lane_bitop Z.lor).
Definition vec_xor : vec -> vec -> vec := vmap2 (lane_bitop Z.lxor).

(** [vec_andc(a,b)] is [a & ~b]. *)
Definition vec_andc : vec -> vec -> vec := vmap2 (lane_bitop Z.ldiff).

(** [vec_sel(a,b,c)] takes each bit from [b] where the bit of [c] is set and
    from [a] where it is clear. *)
Definition lane_sel (x y c : lane) : lane :=
  lane_of_Z (Z.lor (Z.ldiff (lane_unsigned x) (lane_unsigned c))
                   (Z.land (lane_unsigned y) (lane_unsigned c))).

Definition vec_sel : vec -> vec -> vec -> vec := vmap3 lane_sel.

(** Modular 32-bit integer addition and subtraction. *)
Definition vec_add_i : vec -> vec -> vec := vmap2 (lane_bitop Z.add).
Definition vec_sub_i : vec -> vec -> vec := vmap2 (lane_bitop Z.sub).

(** The two values a comparison writes into an element. *)
Definition lane_ones : lane := Lane xff xff xff xff.
Definition lane_zero : lane := Lane x00 x00 x00 x00.

Definition mask_of_bool (c : bool) : lane := if c then lane_ones else lane_zero.

(** Comparisons of signed 32-bit integers. *)
Definition vec_cmpeq_i : vec -> vec -> vec :=
  vmap2 (fun x y => mask_of_bool (lane_signed x =? lane_signed y)).
Definition vec_cmplt_i : vec -> vec -> vec :=
  vmap2 (fun x y => mask_of_bool (lane_signed x <? lane_signed y)).
Definition vec_cmpgt_i : vec -> vec -> vec :=
  vmap2 (fun x y => mask_of_bool (lane_signed x >? lane_signed y)).

(** Comparisons of single-precision numbers; every comparison with a NaN
    is false. *)
Definition vec_cmpeq_f : vec -> vec -> vec :=
  vmap2 (fun x y => mask_of_bool (SFeqb (b32_decode x) (b32_decode y))).
Definition vec_cmplt_f : vec -> vec -> vec :=
  vmap2 (fun x y => mask_of_bool (SFltb (b32_decode x) (b32_decode y))).
Definition vec_cmpgt_f : vec -> vec -> vec :=
  vmap2 (fun x y => mask_of_bool (SFltb (b32_decode y) (b32_decode x))).
Definition vec_cmple_f : vec -> vec -> vec :=
  vmap2 (fun x y => mask_of_bool (SFleb (b32_decode x) (b32_decode y))).
Definition vec_cmpge_f : vec -> vec -> vec :=
  vmap2 (fun x y => mask_of_bool (SFleb (b32_decode y) (b32_decode x))).

(** ** Constants *)

Definition _false : _v4_int := vec_of_ints 0 0 0 0.
Definition _true : _v4_int := vec_of_ints (-1) (-1) (-1) (-1).
Definition _ione : _v4_int := vec_of_ints 1 1 1 1.

Definition _zero : _v4_float :=
  vec_of_floats (float_of_Z 0) (float_of_Z 0) (float_of_Z 0) (float_of_Z 0).
Definition _half : _v4_float :=
  let h := b32_encode (binary_normalize 24 128 1 (-1) false) in
  vec_of_floats h h h h.
Definition _one : _v4_float :=
  vec_of_floats (float_of_Z 1) (float_of_Z 1) (float_of_Z 1) (float_of_Z 1).
Definition _sign : _v4_float :=
  vec_of_ints (Z.shiftl 1 31) (Z.shiftl 1 31) (Z.shiftl 1 31) (Z.shiftl 1 31).

(** ** Boolean vectors *)

Definition lane_eqb (x y : lane) : bool :=
  Byte.eqb (by0 x) (by0 y) && Byte.eqb (by1 x) (by1 y)
  && Byte.eqb (by2 x) (by2 y) && Byte.eqb (by3 x) (by3 y).

(** An element of a boolean vector is all ones (true) or all zero (false). *)
Definition is_bool_lane (x : lane) : bool :=
  lane_eqb x lane_ones || lane_eqb x lane_zero.

Definition is_bool_vec (a : vec) : bool :=
  is_bool_lane (e0 a) && is_bool_lane (e1 a)
  && is_bool_lane (e2 a) && is_bool_lane (e3 a).

(** ** The [v4int] class *)

(** [v4int( const int &a )] and [v4int( i0, i1, i2, i3 )] *)
Definition v4int_of_int (a : Z) : v4int := V4 (vec_of_ints a a a a).
Definition v4int_of_ints (i0 i1 i2 i3 : Z) : v4int := V4 (vec_of_ints i0 i1 i2 i3).

(** The logical operators of [v4int], in the order of the source:
    [<], [>], [==], [!=], [<=], [>=], [&&], [||]. *)
Definition v4int_lt (a b : v4int) : v4int := V4 (vec_cmplt_i (v a) (v b)).
Definition v4int_gt (a b : v4int) : v4int := V4 (vec_cmpgt_i (v a) (v b)).
Definition v4int_eq (a b : v4int) : v4int := V4 (vec_cmpeq_i (v a) (v b)).
Definition v4int_ne (a b : v4int) : v4int :=
  V4 (vec_xor _true (vec_cmpeq_i (v a) (v b))).
Definition v4int_le (a b : v4int) : v4int :=
  V4 (vec_xor _true (vec_cmpgt_i (v a) (v b))).
Definition v4int_ge (a b : v4int) : v4int :=
  V4 (vec_xor _true (vec_cmplt_i (v a) (v b))).
Definition v4int_land (a b : v4int) : v4int :=
  V4 (vec_xor _true (vec_or (vec_cmpeq_i (v a) _false)
                            (vec_cmpeq_i (v b) _false))).
Definition v4int_lor (a b : v4int) : v4int :=
  V4 (vec_xor _true (vec_and (vec_cmpeq_i (v a) _false)
                             (vec_cmpeq_i (v b) _false))).

(** Prefix [!] of [v4int]. *)
Definition v4int_lnot (a : v4int) : v4int := V4 (vec_cmpeq_i _false (v a)).

Definition czero (c : v4int) (a : v4) : v4 := V4 (vec_andc (v a) (v c)).

Definition notczero (c : v4int) (a : v4) : v4 := V4 (vec_and (v a) (v c)).

Definition merge (c : v4int) (t f : v4) : v4 := V4 (vec_sel (v f) (v t) (v c)).

(** ** The logical operators of [v4float] *)

Definition v4float_of_floats (f0 f1 f2 f3 : lane) : v4float :=
  V4 (vec_of_floats f0 f1 f2 f3).

Definition v4float_lt (a b : v4float) : v4int := V4 (vec_cmplt_f (v a) (v b)).
Definition v4float_gt (a b : v4float) : v4int := V4 (vec_cmpgt_f (v a) (v b)).
Definition v4float_eq (a b : v4float) : v4int := V4 (vec_cmpeq_f (v a) (v b)).
Definition v4float_ne (a b : v4float) : v4int :=
  V4 (vec_xor (vec_cmpeq_f (v a) (v b)) _true).
Definition v4float_le (a b : v4float) : v4int := V4 (vec_cmple_f (v a) (v b)).
Definition v4float_ge (a b : v4float) : v4int := V4 (vec_cmpge_f (v a) (v b)).
Definition v4float_land (a b : v4float) : v4int :=
  V4 (vec_xor (vec_or (vec_cmpeq_f (v a) _zero) (vec_cmpeq_f (v b) _zero))
              _true).
Definition v4float_lor (a b : v4float) : v4int :=
  V4 (vec_xor (vec_and (vec_cmpeq_f (v a) _zero) (vec_cmpeq_f (v b) _zero))
              _true).

(** Prefix [!] of [v4float]. *)
Definition v4float_lnot (a : v4float) : v4int := V4 (vec_cmpeq_f (v a) _zero).

(** ** Pointers *)

(** A pointer the source declares [ALIGNED(16)]. *)
Definition aligned16 (p : Z) : Prop := p mod 16 = 0.

(** A pointer the source declares [ALIGNED(8)]. *)
Definition aligned8 (p : Z) : Prop := p mod 8 = 0.

(** Address [q] lies in the [n] bytes that start at [p]. *)
Definition in_range (p n q : Z) : Prop := p <= q < p + n.

(** The [n]-byte records at [p] and [q] share no byte. *)
Definition apart (n p q : Z) : Prop := p + n <= q \/ q + n <= p.

(** The [n] bytes at [p] and the [k] bytes at [q] share no byte. *)
Definition separate (p n q k : Z) : Prop := p + n <= q \/ q + k <= p.

(** The four [n]-byte records at [pa], [pb], [pc] and [pd] share no byte. *)
Definition records_apart (n pa pb pc pd : Z) : Prop :=
  apart n pa pb /\ apart n pa pc /\ apart n pa pd
  /\ apart n pb pc /\ apart n pb pd /\ apart n pc pd.

(** The [v4] object at [a] shares no byte with the first [n] bytes of the
    four records. *)
Definition clear_of (a n pa pb pc pd : Z) : Prop :=
  separate a 16 pa n /\ separate a 16 pb n
  /\ separate a 16 pc n /\ separate a 16 pd n.

(** A memory of zero bytes, and four vectors of distinct integers, for the
    examples. *)
Definition zero_mem : mem := fun _ => x00.

Definition ex_a : v4 := v4int_of_ints 0 1 2 3.
Definition ex_b : v4 := v4int_of_ints 4 5 6 7.
Definition ex_c : v4 := v4int_of_ints 8 9 10 11.
Definition ex_d : v4 := v4int_of_ints 12 13 14 15.

(** ** The floating-point unit *)

(** The arithmetic of the vector unit on one single-precision element.
    [fp_madd a b c] is the fused [a*b + c] of [vec_madd], [fp_nmsub a b c]
    the fused [-(a*b - c)] of [vec_nmsub]; [fp_re] and [fp_rsqrte] are the
    reciprocal and reciprocal square root estimates of [vec_re] and
    [vec_rsqrte], whose bits the architecture leaves to the implementation.
    The unit has no divide and no square root. *)
Class fpu : Type := {
  fp_add : lane -> lane -> lane;
  fp_sub : lane -> lane -> lane;
  fp_madd : lane -> lane -> lane -> lane;
  fp_nmsub : lane -> lane -> lane -> lane;
  fp_re : lane -> lane;
  fp_rsqrte : lane -> lane
}.

Section FloatVectors.
Context {U : fpu}.

Definition vec_add_f : vec -> vec -> vec := vmap2 fp_add.
Definition vec_sub_f : vec -> vec -> vec := vmap2 fp_sub.
Definition vec_madd : vec -> vec -> vec -> vec := vmap3 fp_madd.
Definition vec_nmsub : vec -> vec -> vec -> vec := vmap3 fp_nmsub.
Definition vec_re : vec -> vec := vmap fp_re.
Definition vec_rsqrte : vec -> vec := vmap fp_rsqrte.

(** The binary operators [+], [-], [*] and [/] of [v4float]. *)
Definition v4float_add (a b : v4float) : v4float :=
  V4 (vec_add_f (v a) (v b)).

Definition v4float_sub (a b : v4float) : v4float :=
  V4 (vec_sub_f (v a) (v b)).

Definition v4float_mul (a b : v4float) : v4float :=
  V4 (vec_madd (v a) (v b) _zero).

Definition v4float_div (n a : v4float) : v4float :=
  let a_v := v a in
  (* an estimate of the reciprocal of a *)
  let b_v := vec_re a_v in
  (* two Newton-Raphson steps *)
  let b_v := vec_madd (vec_nmsub b_v a_v _one) b_v b_v in
  let b_v := vec_madd (vec_nmsub b_v a_v _one) b_v b_v in
  (* n * refined estimate *)
  V4 (vec_madd (v n) b_v _zero).

Definition sqrt (a : v4float) : v4float :=
  let a_v := v a in
  let b_v := vec_rsqrte a_v in
  let b_v := vec_madd (vec_nmsub (vec_madd b_v b_v _zero) a_v _one)
                      (vec_madd b_v _half _zero)
                      b_v in
  let b_v := vec_madd (vec_nmsub (vec_madd b_v b_v _zero) a_v _one)
                      (vec_madd b_v _half _zero)
                      b_v in
  V4 (vec_madd a_v b_v _zero).

Definition rsqrt_approx (a : v4float) : v4float := V4 (vec_rsqrte (v a)).

Definition rsqrt (a : v4float) : v4float :=
  let a_v := v a in
  let b_v := vec_rsqrte a_v in
  let b_v := vec_madd (vec_nmsub (vec_madd b_v b_v _zero) a_v _one)
                      (vec_madd b_v _half _zero)
                      b_v in
  V4 (vec_madd (vec_nmsub (vec_madd b_v b_v _zero) a_v _one)
               (vec_madd b_v _half _zero)
               b_v).

Definition rcp_approx (a : v4float) : v4float := V4 (vec_re (v a)).

Definition rcp (a : v4float) : v4float :=
  let a_v := v a in
  let b_v := vec_re a_v in
  let b_v := vec_madd (vec_nmsub b_v a_v _one) b_v b_v in
  V4 (vec_madd (vec_nmsub b_v a_v _one) b_v b_v).

Definition fma (a b c : v4float) : v4float := V4 (vec_madd (v a) (v b) (v c)).

Definition fms (a b c : v4float) : v4float :=
  V4 (vec_sub_f _zero (vec_nmsub (v a) (v b) (v c))).

Definition fnms (a b c : v4float) : v4float :=
  V4 (vec_nmsub (v a) (v b) (v c)).
End FloatVectors.

(** ** A reference floating-point unit *)

(** The fused multiply-add of IEEE-754: the exact [x*y + z], rounded once
    to nearest even. *)
Definition SFfma (prec emax : Z) (x y z : spec_float) : spec_float :=
  let signed (s : bool) (m : positive) := if s then Zneg m else Zpos m in
  let finish (sp : bool) (mp ep : Z) :=
    (* the product is [mp * 2^ep], of sign [sp] when it is zero *)
    match z with
    | S754_nan => S754_nan
    | S754_infinity _ => z
    | S754_zero sz =>
        binary_normalize prec emax mp ep (if Z.eqb mp 0 then sp && sz else false)
    | S754_finite sz mz ez =>
        let e := Z.min ep ez in
        binary_normalize prec emax
          (mp * 2 ^ (ep - e) + signed sz mz * 2 ^ (ez - e)) e false
    end in
  let to_infinity (s : bool) :=
    match z with
    | S754_nan => S754_nan
    | S754_infinity sz => if Bool.eqb s sz then z else S754_nan
    | _ => S754_infinity s
    end in
  match x, y with
  | S754_nan, _ | _, S754_nan => S754_nan
  | S754_infinity _, S754_zero _ | S754_zero _, S754_infinity _ => S754_nan
  | S754_infinity sx, S754_infinity sy
  | S754_infinity sx, S754_finite sy _ _
  | S754_finite sx _ _, S754_infinity sy => to_infinity (xorb sx sy)
  | S754_zero sx, S754_zero sy
  | S754_zero sx, S754_finite sy _ _
  | S754_finite sx _ _, S754_zero sy => finish (xorb sx sy) 0 0
  | S754_finite sx mx ex, S754_finite sy my ey =>
      finish (xorb sx sy) (signed (xorb sx sy) (mx * my)%positive) (ex + ey)
  end.

(** A number with a short mantissa, in the canonical form of binary32. *)
Definition b32_canonical (x : spec_float) : spec_float :=
  match x with
  | S754_finite s m e => binary_normalize 24 128 (if s then Zneg m else Zpos m) e s
  | _ => x
  end.

(** The unit used for the examples: IEEE-754 binary32 arithmetic rounded to
    nearest even, with estimates that carry 13 significant bits, within the
    one part in 4096 the architecture asks of [vec_re] and [vec_rsqrte]. *)
Definition ref_fpu : fpu := {|
  fp_add a b := b32_encode (SFadd 24 128 (b32_decode a) (b32_decode b));
  fp_sub a b := b32_encode (SFsub 24 128 (b32_decode a) (b32_decode b));
  fp_madd a b c :=
    b32_encode (SFfma 24 128 (b32_decode a) (b32_decode b) (b32_decode c));
  fp_nmsub a b c :=
    b32_encode (SFopp (SFfma 24 128 (b32_decode a) (b32_decode b)
                             (SFopp (b32_decode c))));
  fp_re a :=
    b32_encode (b32_canonical (SFdiv 13 128 (S754_finite false 1 0) (b32_decode a)));
  fp_rsqrte a :=
    b32_encode (b32_canonical
      (SFdiv 13 128 (S754_finite false 1 0) (SFsqrt 24 128 (b32_decode a))))
|}.

(** ** Accuracy of the refined estimates *)

(** The real number a binary32 value stands for; infinities and NaN stand
    for no number and are given 0. *)
Definition SF2R (x : spec_float) : R :=
  match x with
  | S754_finite s m e => (IZR (if s then Zneg m else Zpos m) * powerRZ 2 e)%R
  | _ => 0%R
  end.

Definition SF_is_finite (x : spec_float) : bool :=
  match x with
  | S754_zero _ | S754_finite _ _ _ => true
  | _ => false
  end.

Definition lane_R (x : lane) : R := SF2R (b32_decode x).

Definition lane_finite (x : lane) : bool := SF_is_finite (b32_decode x).

(** The relative error of [y] as an approximation of [r > 0]. *)
Definition rel_error (y r : R) : R := (Rabs (y - r) / r)%R.

(** Element [y] is a finite number within one part in a million of [r]. *)
Definition lane_accurate (y : lane) (r : R) : Prop :=
  lane_finite y = true /\ (rel_error (lane_R y) r < 1 / 1000000)%R.

(** Lane [i] of [rcp(a)] is accurate for the reciprocal of lane [i] of
    [a], and lane [i] of [rsqrt(a)] for its reciprocal square root. *)
Definition rcp_accurate {U : fpu} (a : v4float) (i : Z) : Prop :=
  lane_accurate (elt (v (rcp a)) i) (/ lane_R (elt (v a) i))%R.

Definition rsqrt_accurate {U : fpu} (a : v4float) (i : Z) : Prop :=
  lane_accurate (elt (v (rsqrt a)) i) (/ R_sqrt.sqrt (lane_R (elt (v a) i)))%R.

(** Element [y] is a finite number within the relative error [u] of [r]. *)
Definition within (u : R) (y : lane) (r : R) : Prop :=
  lane_finite y = true /\ (Rabs (lane_R y - r) <= u * Rabs r)%R.

(** Half an ulp of binary32, relative to the value: [2^-24]. *)
Definition u24 : R := (/ 16777216)%R.

(** The fused operation delivers its exact result rounded to nearest:
    no overflow, underflow or flush to zero happens at these operands. *)
Definition madd_rounds {U : fpu} (a b c : lane) : Prop :=
  within u24 (fp_madd a b c) (lane_R a * lane_R b + lane_R c)%R.

Definition nmsub_rounds {U : fpu} (a b c : lane) : Prop :=
  within u24 (fp_nmsub a b c) (- (lane_R a * lane_R b - lane_R c))%R.

(** One Newton-Raphson step of [rcp] and of [rsqrt] on one element: [b] is
    the current estimate for the element [a]. *)
Definition rcp_step {U : fpu} (b a : lane) : lane :=
  fp_madd (fp_nmsub b a (elt _one 0)) b b.

Definition rsqrt_step {U : fpu} (b a : lane) : lane :=
  fp_madd (fp_nmsub (fp_madd b b (elt _zero 0)) a (elt _one 0))
          (fp_madd b (elt _half 0) (elt _zero 0))
          b.

(** Every fused operation of the step rounds to nearest. *)
Definition rcp_step_rounds {U : fpu} (b a : lane) : Prop :=
  nmsub_rounds b a (elt _one 0)
  /\ madd_rounds (fp_nmsub b a (elt _one 0)) b b.

Definition rsqrt_step_rounds {U : fpu} (b a : lane) : Prop :=
  madd_rounds b b (elt _zero 0)
  /\ nmsub_rounds (fp_madd b b (elt _zero 0)) a (elt _one 0)
  /\ madd_rounds b (elt _half 0) (elt _zero 0)
  /\ madd_rounds (fp_nmsub (fp_madd b b (elt _zero 0)) a (elt _one 0))
                 (fp_madd b (elt _half 0) (elt _zero 0)) b.

(** The relative error after one step, from the relative error [e] before
    it and the rounding error [u] of each operation. *)
Definition rcp_bound (e u : R) : R :=
  (let g := e * e + (u * e) * (1 + e) in
   g + u * (1 + g))%R.

Definition rsqrt_bound (e u : R) : R :=
  (let t0 := (2 * e + e * e) + u * ((1 + e) * (1 + e)) in
   let tau := u * ((1 + e) * (1 + e)) + u * t0 in
   let g := (3 / 2 * (e * e) + 1 / 2 * (e * e * e))
            + (tau * ((1 + e) * / 2) + (t0 + u * t0) * (u * ((1 + e) * / 2))) in
   g + u * (1 + g))%R.

(** The smallest positive single-precision number, [2^-149], in every
    lane, and the numbers 2 and 3 in every lane. *)
Definition tiny : v4float :=
  V4 (vec_of_ints 1 1 1 1).

Definition twos : v4float :=
  v4float_of_floats (float_of_Z 2) (float_of_Z 2) (float_of_Z 2) (float_of_Z 2).

Definition threes : v4float :=
  v4float_of_floats (float_of_Z 3) (float_of_Z 3) (float_of_Z 3) (float_of_Z 3).

(** ** Further intrinsics *)

(** [vec_any_ne(a,b)] is 1 when some element of [a] differs from the
    element of [b], [vec_all_ne(a,b)] when every element does. *)
Definition vec_any_ne (a b : vec) : Z :=
  if negb (lane_eqb (e0 a) (e0 b)) || negb (lane_eqb (e1 a) (e1 b))
     || negb (lane_eqb (e2 a) (e2 b)) || negb (lane_eqb (e3 a) (e3 b))
  then 1 else 0.

Definition vec_all_ne (a b : vec) : Z :=
  if negb (lane_eqb (e0 a) (e0 b)) && negb (lane_eqb (e1 a) (e1 b))
     && negb (lane_eqb (e2 a) (e2 b)) && negb (lane_eqb (e3 a) (e3 b))
  then 1 else 0.

(** [vec_sl(a,b)] and [vec_sr(a,b)] shift each element of [a] by the low
    five bits of the element of [b]; [vec_sr] shifts zeros in, also when
    [a] is a vector of signed integers. *)
Definition lane_sl (x y : lane) : lane :=
  lane_of_Z (Z.shiftl (lane_unsigned x) (Z.land (lane_unsigned y) 31)).

Definition lane_sr (x y : lane) : lane :=
  lane_of_Z (Z.shiftr (lane_unsigned x) (Z.land (lane_unsigned y) 31)).

Definition vec_sl : vec -> vec -> vec := vmap2 lane_sl.
Definition vec_sr : vec -> vec -> vec := vmap2 lane_sr.

(** [vec_abs] of signed integers is modular: the absolute value of
    [-2^31] is [-2^31]. *)
Definition vec_abs_i : vec -> vec :=
  vmap (fun x => lane_of_Z (Z.abs (lane_signed x))).

(** [vec_stl] stores as [vec_st] does and marks the cache line as least
    recently used. *)
Definition vec_stl (x : vec) (off p : Z) (m : mem) : mem := vec_st x off p m.

(** ** More of [v4] *)

Definition any (a : v4) : Z := vec_any_ne (v a) _false.

Definition all (a : v4) : Z := vec_all_ne (v a) _false.

Definition stream_4x1 (a : v4) (p : Z) (m : mem) : mem := vec_stl (v a) 0 p m.

Definition copy_4x1 (d s : Z) (m : mem) : mem := vec_st (vec_ld 0 s m) 0 d m.

Definition swap_4x1 (a b : Z) (m : mem) : mem :=
  let va := vec_ld 0 a m in
  let vb := vec_ld 0 b m in
  let m := vec_st vb 0 a m in
  vec_st va 0 b m.

Definition load_4x3_tr (pa pb pc pd : Z) (m : mem) : v4 * v4 * v4 :=
  let a0 := vec_ld 0 pa m in
  let b0 := vec_ld 0 pb m in
  let c1 := vec_ld 0 pc m in
  let d1 := vec_ld 0 pd m in
  (* Step 1: interleave top and bottom half *)
  let a1 := vec_mergeh a0 c1 in
  let b1 := vec_mergeh b0 d1 in
  let c1 := vec_mergel a0 c1 in
  let d1 := vec_mergel b0 d1 in
  (* Step 2: interleave even and odd rows *)
  (V4 (vec_mergeh a1 b1), V4 (vec_mergel a1 b1), V4 (vec_mergeh c1 d1)).

(** [store_4x3_tr] takes [a], [b] and [c] by constant reference, here the
    addresses of the three objects: [a.v] is read on entry, [b.v] after
    the stores of the lanes of [a] and [c.v] after those of [b]. *)
Definition store_4x3_tr (a b c : Z) (pa pb pc pd : Z) (m : mem) : mem :=
  let t := v (v4_at a m) in
  let m := store_float pa 0 (elt t 0) m in
  let m := store_float pb 0 (elt t 1) m in
  let m := store_float pc 0 (elt t 2) m in
  let m := store_float pd 0 (elt t 3) m in
  let t := v (v4_at b m) in
  let m := store_float pa 1 (elt t 0) m in
  let m := store_float pb 1 (elt t 1) m in
  let m := store_float pc 1 (elt t 2) m in
  let m := store_float pd 1 (elt t 3) m in
  let t := v (v4_at c m) in
  let m := store_float pa 2 (elt t 0) m in
  let m := store_float pb 2 (elt t 1) m in
  let m := store_float pc 2 (elt t 2) m in
  store_float pd 2 (elt t 3) m.

(** ** More of [v4int] *)

(** [a(n)] for [0 <= n < 4]: the [int] in lane [n]. For another [n] the
    source reads outside the union, which C leaves undefined; the model
    then reads lane 3, as [elt] does. *)
Definition v4int_get (a : v4int) (n : Z) : Z := lane_signed (elt (v a) n).

(** The prefix operators [+], [-] and [~]. *)
Definition v4int_pos (a : v4int) : v4int := V4 (v a).
Definition v4int_neg (a : v4int) : v4int := V4 (vec_sub_i _false (v a)).
Definition v4int_not (a : v4int) : v4int := V4 (vec_xor _true (v a)).

(** Prefix and postfix [++] and [--]: the new value of [a], then the value
    of the expression. *)
Definition v4int_pre_inc (a : v4int) : v4int * v4int :=
  let a_v := vec_add_i (v a) _ione in
  (V4 a_v, V4 a_v).

Definition v4int_pre_dec (a : v4int) : v4int * v4int :=
  let a_v := vec_sub_i (v a) _ione in
  (V4 a_v, V4 a_v).

Definition v4int_post_inc (a : v4int) : v4int * v4int :=
  let a_v := v a in
  (V4 (vec_add_i a_v _ione), V4 a_v).

Definition v4int_post_dec (a : v4int) : v4int * v4int :=
  let a_v := v a in
  (V4 (vec_sub_i a_v _ione), V4 a_v).

(** The arithmetic of C on [int]: the product is undefined when it
    overflows, the quotient and the remainder when the divisor is 0 or the
    quotient overflows ([INT_MIN / -1]). *)
Definition int_ok (z : Z) : bool := (- 2 ^ 31 <=? z) && (z <? 2 ^ 31).

Definition int_mul (x y : Z) : option Z :=
  if int_ok (x * y) then Some (x * y) else None.

Definition int_div (x y : Z) : option Z :=
  if (y =? 0) || negb (int_ok (Z.quot x y)) then None else Some (Z.quot x y).

Definition int_mod (x y : Z) : option Z :=
  if (y =? 0) || negb (int_ok (Z.quot x y)) then None else Some (Z.rem x y).

(** The operators the source computes lane by lane through a union:
    [(_v4_int){ t.i[0] op u.i[0], ..., t.i[3] op u.i[3] }]. *)
Definition scalarized (op : Z -> Z -> option Z) (a b : v4int) : option v4int :=
  let t := v a in
  let u := v b in
  match op (lane_signed (elt t 0)) (lane_signed (elt u 0)),
        op (lane_signed (elt t 1)) (lane_signed (elt u 1)),
        op (lane_signed (elt t 2)) (lane_signed (elt u 2)),
        op (lane_signed (elt t 3)) (lane_signed (elt u 3)) with
  | Some r0, Some r1, Some r2, Some r3 => Some (V4 (vec_of_ints r0 r1 r2 r3))
  | _, _, _, _ => None
  end.

(** The binary operators [+ - * / % ^ & | << >>]. *)
Definition v4int_add (a b : v4int) : v4int := V4 (vec_add_i (v a) (v b)).
Definition v4int_sub (a b : v4int) : v4int := V4 (vec_sub_i (v a) (v b)).
Definition v4int_mul : v4int -> v4int -> option v4int := scalarized int_mul.
Definition v4int_div : v4int -> v4int -> option v4int := scalarized int_div.
Definition v4int_mod : v4int -> v4int -> option v4int := scalarized int_mod.
Definition v4int_xor (a b : v4int) : v4int := V4 (vec_xor (v a) (v b)).
Definition v4int_and (a b : v4int) : v4int := V4 (vec_and (v a) (v b)).
Definition v4int_or (a b : v4int) : v4int := V4 (vec_or (v a) (v b)).
Definition v4int_shl (a b : v4int) : v4int := V4 (vec_sl (v a) (v b)).
Definition v4int_shr (a b : v4int) : v4int := V4 (vec_sr (v a) (v b)).

(** The assignment operators [+= -= *= /= %= ^= &= |= <<= >>=]: the new
    value of the receiver. *)
Definition v4int_add_assign (a b : v4int) : v4int := V4 (vec_add_i (v a) (v b)).
Definition v4int_sub_assign (a b : v4int) : v4int := V4 (vec_sub_i (v a) (v b)).
Definition v4int_mul_assign : v4int -> v4int -> option v4int := scalarized int_mul.
Definition v4int_div_assign : v4int -> v4int -> option v4int := scalarized int_div.
Definition v4int_mod_assign : v4int -> v4int -> option v4int := scalarized int_mod.
Definition v4int_xor_assign (a b : v4int) : v4int := V4 (vec_xor (v a) (v b)).
Definition v4int_and_assign (a b : v4int) : v4int := V4 (vec_and (v a) (v b)).
Definition v4int_or_assign (a b : v4int) : v4int := V4 (vec_or (v a) (v b)).
Definition v4int_shl_assign (a b : v4int) : v4int := V4 (vec_sl (v a) (v b)).
Definition v4int_shr_assign (a b : v4int) : v4int := V4 (vec_sr (v a) (v b)).

Definition abs (a : v4int) : v4int := V4 (vec_abs_i (v a)).

(** ** More of [v4float] *)

Definition fabs (a : v4float) : v4float := V4 (vec_andc (v a) _sign).

Definition copysign (a b : v4float) : v4float :=
  V4 (vec_or (vec_andc (v a) _sign) (vec_and (v b) _sign)).

Definition clear_bits (m : v4int) (a : v4float) : v4float :=
  V4 (vec_andc (v a) (v m)).

Definition set_bits (m : v4int) (a : v4float) : v4float :=
  V4 (vec_or (v a) (v m)).

Definition toggle_bits (m : v4int) (a : v4float) : v4float :=
  V4 (vec_xor (v a) (v m)).

Section MoreFloatVectors.
Context {U : fpu}.

(** The operator [/=]: the new value of the receiver. *)
Definition v4float_div_assign (r a : v4float) : v4float :=
  let a_v := v a in
  let b_v := vec_re a_v in
  let b_v := vec_madd (vec_nmsub b_v a_v _one) b_v b_v in
  let b_v := vec_madd (vec_nmsub b_v a_v _one) b_v b_v in
  V4 (vec_madd (v r) b_v _zero).

Definition increment_4x1 (p : Z) (a : v4float) (m : mem) : mem :=
  vec_st (vec_add_f (vec_ld 0 p m) (v a)) 0 p m.

Definition decrement_4x1 (p : Z) (a : v4float) (m : mem) : mem :=
  vec_st (vec_sub_f (vec_ld 0 p m) (v a)) 0 p m.

Definition scale_4x1 (p : Z) (a : v4float) (m : mem) : mem :=
  vec_st (vec_madd (vec_ld 0 p m) (v a) _zero) 0 p m.
End MoreFloatVectors.

(** ** Helpers for the statements *)

(** Index [j] of the four indices [i0 i1 i2 i3]. *)
Definition pick (i0 i1 i2 i3 j : Z) : Z :=
  match j with
  | 0 => i0
  | 1 => i1
  | 2 => i2
  | _ => i3
  end.

(** The [int] that [z] wraps to. *)
Definition swrap (z : Z) : Z := (z + 2 ^ 31) mod 2 ^ 32 - 2 ^ 31.

(** The truth value C gives an [int] lane: nonzero is true. *)
Definition lane_true (x : lane) : bool := negb (lane_eqb x lane_zero).

(** The sign bit of an element. *)
Definition lane_sign (x : lane) : bool := Z.testbit (lane_unsigned x) 31.

(** The float [x] with its sign replaced by [s]; a NaN stays a NaN. *)
Definition SFset_sign (s : bool) (x : spec_float) : spec_float :=
  match x with
  | S754_zero _ => S754_zero s
  | S754_infinity _ => S754_infinity s
  | S754_nan => S754_nan
  | S754_finite _ m e => S754_finite s m e
  end.

(** The truth value C gives a [float] lane: true unless it compares equal
    to zero. *)
Definition float_true (x : lane) : bool :=
  negb (SFeqb (b32_decode x) (S754_zero false)).

Section FloatOperators.
Context {U : fpu}.

(** The prefix operator [-] of [v4float]. *)
Definition v4float_neg (a : v4float) : v4float := V4 (vec_sub_f _zero (v a)).

(** Prefix and postfix [++] and [--] of [v4float]: the new value of [a],
    then the value of the expression. *)
Definition v4float_pre_inc (a : v4float) : v4float * v4float :=
  let a_v := vec_add_f (v a) _one in
  (V4 a_v, V4 a_v).

Definition v4float_pre_dec (a : v4float) : v4float * v4float :=
  let a_v := vec_sub_f (v a) _one in
  (V4 a_v, V4 a_v).

Definition v4float_post_inc (a : v4float) : v4float * v4float :=
  let a_v := v a in
  (V4 (vec_add_f a_v _one), V4 a_v).

Definition v4float_post_dec (a : v4float) : v4float * v4float :=
  let a_v := v a in
  (V4 (vec_sub_f a_v _one), V4 a_v).

(** The operators [+=], [-=] and [*=]: the new value of the receiver. *)
Definition v4float_add_assign (r b : v4float) : v4float :=
  V4 (vec_add_f (v r) (v b)).

Definition v4float_sub_assign (r b : v4float) : v4float :=
  V4 (vec_sub_f (v r) (v b)).

Definition v4float_mul_assign (r b : v4float) : v4float :=
  V4 (vec_madd (v r) (v b) _zero).
End FloatOperators.

(** * Properties *)

(** ** Bytes and elements *)

Lemma byte_unsigned_range (x : byte) : 0 <= byte_unsigned x < 256.
Proof.
  unfold byte_unsigned. pose proof (Byte.to_N_bounded x). lia.
Qed.

Lemma byte_of_Z_unsigned (x : byte) : byte_of_Z (byte_unsigned x) = x.
Proof.
  unfold byte_of_Z. pose proof (byte_unsigned_range x) as Hr.
  rewrite Z.mod_small by exact Hr.
  unfold byte_unsigned. rewrite N2Z.id, Byte.of_to_N. reflexivity.
Qed.

Lemma lane_unsigned_range (x : lane) : 0 <= lane_unsigned x < 2 ^ 32.
Proof.
  destruct x as [a b c d]. unfold lane_unsigned. simpl.
  pose proof (byte_unsigned_range a). pose proof (byte_unsigned_range b).
  pose proof (byte_unsigned_range c). pose proof (byte_unsigned_range d).
  lia.
Qed.

Lemma byte_of_Z_mod (z : Z) : byte_of_Z (z mod 256) = byte_of_Z z.
Proof. unfold byte_of_Z. rewrite Z.mod_mod by lia. reflexivity. Qed.

(** An element is determined by its unsigned value. *)
Lemma lane_of_Z_bytes (a b c d : Z) :
  0 <= a < 256 -> 0 <= b < 256 -> 0 <= c < 256 -> 0 <= d < 256 ->
  lane_of_Z (a * 2 ^ 24 + b * 2 ^ 16 + c * 2 ^ 8 + d) =
  Lane (byte_of_Z a) (byte_of_Z b) (byte_of_Z c) (byte_of_Z d).
Proof.
  intros Ha Hb Hc Hd. unfold lane_of_Z.
  rewrite !Z.shiftr_div_pow2 by lia.
  change (2 ^ 24) with 16777216. change (2 ^ 16) with 65536.
  change (2 ^ 8) with 256.
  set (z := a * 16777216 + b * 65536 + c * 256 + d).
  rewrite <- (byte_of_Z_mod (z / 65536)), <- (byte_of_Z_mod (z / 256)),
    <- (byte_of_Z_mod z).
  replace (z / 16777216) with a by (subst z; Z.div_mod_to_equations; lia).
  replace ((z / 65536) mod 256) with b by (subst z; Z.div_mod_to_equations; lia).
  replace ((z / 256) mod 256) with c by (subst z; Z.div_mod_to_equations; lia).
  replace (z mod 256) with d by (subst z; Z.div_mod_to_equations; lia).
  reflexivity.
Qed.

(** An element is determined by its unsigned value. *)
Lemma lane_of_Z_unsigned (x : lane) : lane_of_Z (lane_unsigned x) = x.
Proof.
  destruct x as [a b c d]. unfold lane_unsigned. simpl.
  rewrite lane_of_Z_bytes by apply byte_unsigned_range.
  rewrite !byte_of_Z_unsigned. reflexivity.
Qed.

(** ** Transpose *)

Lemma transpose_rows (a b c d : v4) :
  transpose a b c d =
  (V4 (Vec (e0 (v a)) (e0 (v b)) (e0 (v c)) (e0 (v d))),
   V4 (Vec (e1 (v a)) (e1 (v b)) (e1 (v c)) (e1 (v d))),
   V4 (Vec (e2 (v a)) (e2 (v b)) (e2 (v c)) (e2 (v d))),
   V4 (Vec (e3 (v a)) (e3 (v b)) (e3 (v c)) (e3 (v d)))).
Proof. reflexivity. Qed.

(** The four lane indices, by cases. *)
Lemma lane_index_cases (i : Z) : 0 <= i < 4 -> i = 0 \/ i = 1 \/ i = 2 \/ i = 3.
Proof. lia. Qed.

Ltac lane_cases H :=
  apply lane_index_cases in H;
  destruct H as [H | [H | [H | H]]]; subst.

(** C2: [transpose] maps the vectors (0,1,2,3), (4,5,6,7), (8,9,10,11),
    (12,13,14,15) to (0,4,8,12), (1,5,9,13), (2,6,10,14), (3,7,11,15), and
    for every four vectors lane [j] of output vector [i] is lane [i] of
    input vector [j]. *)
Theorem transpose_is_matrix_transpose :
  transpose
    (v4float_of_floats (float_of_Z 0) (float_of_Z 1) (float_of_Z 2) (float_of_Z 3))
    (v4float_of_floats (float_of_Z 4) (float_of_Z 5) (float_of_Z 6) (float_of_Z 7))
    (v4float_of_floats (float_of_Z 8) (float_of_Z 9) (float_of_Z 10) (float_of_Z 11))
    (v4float_of_floats (float_of_Z 12) (float_of_Z 13) (float_of_Z 14) (float_of_Z 15))
  = (v4float_of_floats (float_of_Z 0) (float_of_Z 4) (float_of_Z 8) (float_of_Z 12),
     v4float_of_floats (float_of_Z 1) (float_of_Z 5) (float_of_Z 9) (float_of_Z 13),
     v4float_of_floats (float_of_Z 2) (float_of_Z 6) (float_of_Z 10) (float_of_Z 14),
     v4float_of_floats (float_of_Z 3) (float_of_Z 7) (float_of_Z 11) (float_of_Z 15))
  /\ forall (a b c d : v4) (i j : Z),
       0 <= i < 4 -> 0 <= j < 4 ->
       elt (v (sel4 (transpose a b c d) i)) j = elt (v (sel4 (a, b, c, d) j)) i.
Proof.
  split.
  - reflexivity.
  - intros a b c d i j Hi Hj. rewrite transpose_rows.
    lane_cases Hi; lane_cases Hj; reflexivity.
Qed.

Lemma transpose_is_matrix_transpose_witness :
  let a := v4int_of_ints 0 1 2 3 in
  let b := v4int_of_ints 4 5 6 7 in
  let c := v4int_of_ints 8 9 10 11 in
  let d := v4int_of_ints 12 13 14 15 in
  elt (v (sel4 (transpose a b c d) 1)) 2 = elt (v (sel4 (a, b, c, d) 2)) 1.
Proof.
  intros a b c d.
  apply (proj2 transpose_is_matrix_transpose a b c d 1 2); lia.
Defined.

(** C3: transposing twice gives back the four vectors. *)
Theorem transpose_involutive (a b c d : v4) :
  let '(a', b', c', d') := transpose a b c d in
  transpose a' b' c' d' = (a, b, c, d).
Proof.
  destruct a as [[a0 a1 a2 a3]], b as [[b0 b1 b2 b3]],
           c as [[c0 c1 c2 c3]], d as [[d0 d1 d2 d3]].
  reflexivity.
Qed.

(** ** Shuffle and splat *)

(** C8: [shuffle(a,0,1,2,3)] is [a]; the index [0 + 1*4 + 2*16 + 3*64] of
    the table holds [P(0,1,2,3)], whose bytes are 0, 1, ..., 15. *)
Theorem shuffle_identity :
  (forall a : v4, shuffle a 0 1 2 3 = a)
  /\ perm_at (0 + 1*4 + 2*16 + 3*64) = P 0 1 2 3
  /\ map byte_unsigned (vec_bytes (P 0 1 2 3))
     = [0; 1; 2; 3; 4; 5; 6; 7; 8; 9; 10; 11; 12; 13; 14; 15].
Proof.
  split; [ | split ].
  - intros [[[a0 a1 a2 a3] [a4 a5 a6 a7] [a8 a9 a10 a11] [a12 a13 a14 a15]]].
    reflexivity.
  - reflexivity.
  - reflexivity.
Qed.

(** C10: for a lane index [n], [splat(a,n)] is [shuffle(a,n,n,n,n)]; the
    table index of that shuffle is [85*n] and holds [P(n,n,n,n)]. *)
Theorem splat_is_shuffle (a : v4) (n : Z) :
  0 <= n < 4 ->
  splat a n = shuffle a n n n n
  /\ n + n*4 + n*16 + n*64 = 85 * n
  /\ perm_at (85 * n) = P n n n n.
Proof.
  intros Hn.
  destruct a as [[[a0 a1 a2 a3] [a4 a5 a6 a7] [a8 a9 a10 a11] [a12 a13 a14 a15]]].
  lane_cases Hn; repeat split; reflexivity.
Qed.

Lemma splat_is_shuffle_witness :
  let a := v4int_of_ints 10 20 30 40 in
  splat a 2 = shuffle a 2 2 2 2
  /\ 2 + 2*4 + 2*16 + 2*64 = 85 * 2
  /\ perm_at (85 * 2) = P 2 2 2 2.
Proof. intros a. apply (splat_is_shuffle a 2). lia. Defined.

Example shuffle_reverse : shuffle ex_a 3 2 1 0 = v4int_of_ints 3 2 1 0.
Proof. reflexivity. Qed.

Example shuffle_duplicate : shuffle ex_a 1 1 3 0 = v4int_of_ints 1 1 3 0.
Proof. reflexivity. Qed.

(** ** Boolean vectors and masks *)

Lemma lane_eqb_refl (x : lane) : lane_eqb x x = true.
Proof.
  destruct x as [a b c d]. unfold lane_eqb. simpl.
  rewrite !Byte.byte_dec_lb; reflexivity.
Qed.

Lemma lane_eqb_eq (x y : lane) : lane_eqb x y = true <-> x = y.
Proof.
  split.
  - destruct x as [a b c d], y as [a' b' c' d']. unfold lane_eqb. simpl.
    intros H. apply andb_prop in H. destruct H as [H Hd].
    apply andb_prop in H. destruct H as [H Hc].
    apply andb_prop in H. destruct H as [Ha Hb].
    apply Byte.byte_dec_bl in Ha, Hb, Hc, Hd. congruence.
  - intros ->. apply lane_eqb_refl.
Qed.

Lemma is_bool_lane_cases (x : lane) :
  is_bool_lane x = true <-> x = lane_ones \/ x = lane_zero.
Proof.
  unfold is_bool_lane. rewrite orb_true_iff, !lane_eqb_eq. reflexivity.
Qed.

Lemma is_bool_lane_mask (c : bool) : is_bool_lane (mask_of_bool c) = true.
Proof. destruct c; reflexivity. Qed.

Lemma lane_unsigned_ones : lane_unsigned lane_ones = Z.ones 32.
Proof. reflexivity. Qed.

Lemma lane_unsigned_zero : lane_unsigned lane_zero = 0.
Proof. reflexivity. Qed.

(** Selecting under an all-ones mask takes the second operand, under an
    all-zero mask the first one. *)
Lemma lane_sel_ones (x y : lane) : lane_sel x y lane_ones = y.
Proof.
  unfold lane_sel. rewrite lane_unsigned_ones.
  pose proof (lane_unsigned_range x) as Hx.
  pose proof (lane_unsigned_range y) as Hy.
  rewrite Z.ldiff_ones_r by lia.
  rewrite Z.land_ones by lia.
  rewrite Z.shiftr_div_pow2 by lia.
  rewrite (Z.div_small (lane_unsigned x)) by lia.
  rewrite Z.shiftl_0_l, Z.lor_0_l, Z.mod_small by lia.
  apply lane_of_Z_unsigned.
Qed.

Lemma lane_sel_zero (x y : lane) : lane_sel x y lane_zero = x.
Proof.
  unfold lane_sel. rewrite lane_unsigned_zero.
  rewrite Z.ldiff_0_r, Z.land_0_r, Z.lor_0_r.
  apply lane_of_Z_unsigned.
Qed.

Lemma lane_sel_mask (x y : lane) (c : bool) :
  lane_sel x y (mask_of_bool c) = if c then y else x.
Proof. destruct c; [ apply lane_sel_ones | apply lane_sel_zero ]. Qed.

Lemma elt_vmap3 (f : lane -> lane -> lane -> lane) (a b c : vec) (i : Z) :
  elt (vmap3 f a b c) i = f (elt a i) (elt b i) (elt c i).
Proof. destruct i as [ | [ [ | | ] | [ | | ] | ] | ]; reflexivity. Qed.

Lemma elt_vmap2 (f : lane -> lane -> lane) (a b : vec) (i : Z) :
  elt (vmap2 f a b) i = f (elt a i) (elt b i).
Proof. destruct i as [ | [ [ | | ] | [ | | ] | ] | ]; reflexivity. Qed.

Lemma elt_vmap (f : lane -> lane) (a : vec) (i : Z) :
  elt (vmap f a) i = f (elt a i).
Proof. destruct i as [ | [ [ | | ] | [ | | ] | ] | ]; reflexivity. Qed.

Lemma is_bool_vec_elt (a : vec) (i : Z) :
  is_bool_vec a = true -> is_bool_lane (elt a i) = true.
Proof.
  unfold is_bool_vec. rewrite !andb_true_iff. intros [[[H0 H1] H2] H3].
  destruct i as [ | [ [ | | ] | [ | | ] | ] | ]; assumption.
Qed.

(** C6: under a boolean vector [c], lane [i] of [merge(c,t,f)] is lane [i]
    of [t] where lane [i] of [c] is all ones and lane [i] of [f] where it is
    all zero; with the all-true mask [merge] returns [t] and with the
    all-false mask it returns [f]. *)
Theorem merge_selects (c : v4int) (t f : v4) :
  is_bool_vec (v c) = true ->
  (forall i : Z, 0 <= i < 4 ->
     (elt (v c) i = lane_ones -> elt (v (merge c t f)) i = elt (v t) i)
     /\ (elt (v c) i = lane_zero -> elt (v (merge c t f)) i = elt (v f) i)
     /\ (elt (v c) i = lane_ones \/ elt (v c) i = lane_zero))
  /\ merge (V4 _true) t f = t
  /\ merge (V4 _false) t f = f.
Proof.
  intros Hc. split; [ | split ].
  - intros i Hi. unfold merge. simpl. unfold vec_sel. rewrite elt_vmap3.
    split; [ | split ].
    + intros ->. apply lane_sel_ones.
    + intros ->. apply lane_sel_zero.
    + apply is_bool_lane_cases, is_bool_vec_elt, Hc.
  - destruct t as [[t0 t1 t2 t3]]. unfold merge, vec_sel, vmap3. simpl.
    change (lane_of_Z (-1)) with lane_ones.
    rewrite !lane_sel_ones. reflexivity.
  - destruct f as [[f0 f1 f2 f3]]. unfold merge, vec_sel, vmap3. simpl.
    change (lane_of_Z 0) with lane_zero.
    rewrite !lane_sel_zero. reflexivity.
Qed.

Lemma merge_selects_witness :
  let c := v4int_lt (v4int_of_ints 1 5 3 7) (v4int_of_ints 4 4 4 4) in
  let t := v4int_of_ints 10 11 12 13 in
  let f := v4int_of_ints 20 21 22 23 in
  is_bool_vec (v c) = true
  /\ merge c t f = v4int_of_ints 10 21 12 23
  /\ merge (V4 _true) t f = t.
Proof.
  intros c t f.
  assert (Hc : is_bool_vec (v c) = true) by reflexivity.
  split; [ exact Hc | ].
  split; [ reflexivity | ].
  exact (proj1 (proj2 (merge_selects c t f Hc))).
Defined.

Lemma lane_xor_ones_mask (c : bool) :
  lane_bitop Z.lxor lane_ones (mask_of_bool c) = mask_of_bool (negb c).
Proof. destruct c; reflexivity. Qed.

Lemma lane_xor_mask_ones (c : bool) :
  lane_bitop Z.lxor (mask_of_bool c) lane_ones = mask_of_bool (negb c).
Proof. destruct c; reflexivity. Qed.

Lemma lane_or_mask (c d : bool) :
  lane_bitop Z.lor (mask_of_bool c) (mask_of_bool d) = mask_of_bool (c || d).
Proof. destruct c, d; reflexivity. Qed.

Lemma lane_and_mask (c d : bool) :
  lane_bitop Z.land (mask_of_bool c) (mask_of_bool d) = mask_of_bool (c && d).
Proof. destruct c, d; reflexivity. Qed.

(** A register of comparison results is a boolean vector. *)
Lemma is_bool_vec_masks (c0 c1 c2 c3 : bool) :
  is_bool_vec (Vec (mask_of_bool c0) (mask_of_bool c1)
                   (mask_of_bool c2) (mask_of_bool c3)) = true.
Proof. destruct c0, c1, c2, c3; reflexivity. Qed.

Lemma true_lanes : _true = Vec lane_ones lane_ones lane_ones lane_ones.
Proof. reflexivity. Qed.

Ltac bool_vec :=
  cbv [v4int_lt v4int_gt v4int_eq v4int_ne v4int_le v4int_ge v4int_land
       v4int_lor v4int_lnot v4float_lt v4float_gt v4float_eq v4float_ne
       v4float_le v4float_ge v4float_land v4float_lor v4float_lnot
       vec_cmpeq_i vec_cmplt_i vec_cmpgt_i vec_cmpeq_f vec_cmplt_f
       vec_cmpgt_f vec_cmple_f vec_cmpge_f vec_xor vec_or vec_and vmap2 v];
  rewrite ?true_lanes; cbv [e0 e1 e2 e3];
  rewrite ?lane_or_mask, ?lane_and_mask;
  rewrite ?lane_xor_ones_mask, ?lane_xor_mask_ones;
  apply is_bool_vec_masks.

(** C7: each of the comparison operators [<], [>], [==], [!=], [<=], [>=],
    [&&], [||] of [v4int] and of [v4float] returns a boolean vector: every
    lane of the result is all ones or all zero. *)
Theorem comparisons_are_boolean (a b : v4int) (x y : v4float) :
  (is_bool_vec (v (v4int_lt a b)) = true
   /\ is_bool_vec (v (v4int_gt a b)) = true
   /\ is_bool_vec (v (v4int_eq a b)) = true
   /\ is_bool_vec (v (v4int_ne a b)) = true
   /\ is_bool_vec (v (v4int_le a b)) = true
   /\ is_bool_vec (v (v4int_ge a b)) = true
   /\ is_bool_vec (v (v4int_land a b)) = true
   /\ is_bool_vec (v (v4int_lor a b)) = true)
  /\ (is_bool_vec (v (v4float_lt x y)) = true
      /\ is_bool_vec (v (v4float_gt x y)) = true
      /\ is_bool_vec (v (v4float_eq x y)) = true
      /\ is_bool_vec (v (v4float_ne x y)) = true
      /\ is_bool_vec (v (v4float_le x y)) = true
      /\ is_bool_vec (v (v4float_ge x y)) = true
      /\ is_bool_vec (v (v4float_land x y)) = true
      /\ is_bool_vec (v (v4float_lor x y)) = true).
Proof.
  destruct a as [[a0 a1 a2 a3]], b as [[b0 b1 b2 b3]].
  destruct x as [[x0 x1 x2 x3]], y as [[y0 y1 y2 y3]].
  repeat split; bool_vec.
Qed.

(** Integer comparisons are signed, a NaN compares false with everything and
    the two zeros compare equal. *)
Example v4int_lt_signed :
  v4int_lt (v4int_of_ints (-1) 0 5 (-7)) (v4int_of_ints 0 0 3 (-2))
  = v4int_of_ints (-1) 0 0 (-1).
Proof. reflexivity. Qed.

Example v4float_eq_special :
  let nan := b32_encode S754_nan in
  let mzero := b32_encode (S754_zero true) in
  v4float_eq (v4float_of_floats nan mzero (float_of_Z 1) (float_of_Z 2))
             (v4float_of_floats nan (float_of_Z 0) (float_of_Z 1) (float_of_Z 3))
  = v4int_of_ints 0 (-1) (-1) 0.
Proof. reflexivity. Qed.

Example czero_notczero :
  let c := v4int_of_ints (-1) 0 (-1) 0 in
  czero c ex_b = v4int_of_ints 0 5 0 7
  /\ notczero c ex_b = v4int_of_ints 4 0 6 0.
Proof. split; reflexivity. Qed.

(** ** Memory *)

Lemma length_load_bytes (m : mem) (p : Z) (n : nat) :
  length (load_bytes m p n) = n.
Proof. unfold load_bytes. rewrite length_map, length_seq. reflexivity. Qed.

Lemma nth_load_bytes (m : mem) (p : Z) (n i : nat) :
  (i < n)%nat -> nth i (load_bytes m p n) x00 = m (p + Z.of_nat i).
Proof.
  intros Hi. unfold load_bytes.
  set (f := fun k : nat => m (p + Z.of_nat k)).
  rewrite (nth_indep _ x00 (f 0%nat))
    by (rewrite length_map, length_seq; exact Hi).
  rewrite (map_nth f), seq_nth by exact Hi. reflexivity.
Qed.

Lemma store_bytes_inside (m : mem) (p : Z) (l : list byte) (i : nat) :
  (i < length l)%nat -> store_bytes m p l (p + Z.of_nat i) = nth i l x00.
Proof.
  intros Hi. unfold store_bytes.
  replace ((p <=? p + Z.of_nat i) && (p + Z.of_nat i <? p + Z.of_nat (length l)))
    with true by (symmetry; apply andb_true_intro; split; [ apply Z.leb_le | apply Z.ltb_lt ]; lia).
  replace (p + Z.of_nat i - p) with (Z.of_nat i) by lia.
  rewrite Nat2Z.id. reflexivity.
Qed.

Lemma store_bytes_outside (m : mem) (p : Z) (l : list byte) (q : Z) :
  ~ in_range p (Z.of_nat (length l)) q -> store_bytes m p l q = m q.
Proof.
  unfold in_range, store_bytes. intros Hq.
  destruct (p <=? q) eqn:H1; [ | reflexivity ].
  destruct (q <? p + Z.of_nat (length l)) eqn:H2; [ | reflexivity ].
  apply Z.leb_le in H1. apply Z.ltb_lt in H2. lia.
Qed.

(** Reading the bytes just written returns them. *)
Lemma load_store_bytes_same (m : mem) (p : Z) (l : list byte) :
  load_bytes (store_bytes m p l) p (length l) = l.
Proof.
  apply (nth_ext _ _ x00 x00).
  - apply length_load_bytes.
  - intros i Hi. rewrite length_load_bytes in Hi.
    rewrite nth_load_bytes by exact Hi. apply store_bytes_inside, Hi.
Qed.

(** A write does not change what is read from bytes it does not touch. *)
Lemma load_store_bytes_apart (m : mem) (p q : Z) (l : list byte) (n : nat) :
  p + Z.of_nat n <= q \/ q + Z.of_nat (length l) <= p ->
  load_bytes (store_bytes m q l) p n = load_bytes m p n.
Proof.
  intros H. apply (nth_ext _ _ x00 x00).
  - rewrite !length_load_bytes. reflexivity.
  - intros i Hi. rewrite length_load_bytes in Hi.
    rewrite !nth_load_bytes by exact Hi.
    apply store_bytes_outside. unfold in_range. lia.
Qed.

Lemma vec_of_bytes_bytes (x : vec) : vec_of_bytes (vec_bytes x) = x.
Proof. destruct x as [[] [] [] []]. reflexivity. Qed.

Lemma lane_of_bytes_bytes (x : lane) : lane_of_bytes (lane_bytes x) = x.
Proof. destruct x. reflexivity. Qed.

Lemma length_vec_bytes (x : vec) : length (vec_bytes x) = 16%nat.
Proof. reflexivity. Qed.

Lemma length_lane_bytes (x : lane) : length (lane_bytes x) = 4%nat.
Proof. reflexivity. Qed.

(** The effective address of a vector access is the address rounded down
    to a multiple of 16. *)
Lemma vec_ea_round (off p : Z) : vec_ea off p = 16 * ((off + p) / 16).
Proof.
  unfold vec_ea. rewrite <- Z.ldiff_land.
  change 15 with (Z.ones 4). rewrite Z.ldiff_ones_r by lia.
  rewrite Z.shiftl_mul_pow2, Z.shiftr_div_pow2 by lia.
  change (2 ^ 4) with 16. lia.
Qed.

Lemma vec_ea_aligned (p : Z) : aligned16 p -> vec_ea 0 p = p.
Proof.
  unfold aligned16. intros Hp. rewrite vec_ea_round, Z.add_0_l.
  Z.div_mod_to_equations. lia.
Qed.

Lemma vec_ld_st_same (x : vec) (p : Z) (m : mem) :
  vec_ld 0 p (vec_st x 0 p m) = x.
Proof.
  unfold vec_ld, vec_st.
  rewrite <- (length_vec_bytes x), load_store_bytes_same.
  apply vec_of_bytes_bytes.
Qed.

Lemma vec_ld_st_apart (x : vec) (p q : Z) (m : mem) :
  aligned16 p -> aligned16 q -> p <> q ->
  vec_ld 0 p (vec_st x 0 q m) = vec_ld 0 p m.
Proof.
  intros Hp Hq Hpq. unfold vec_ld, vec_st.
  rewrite !vec_ea_aligned by assumption.
  rewrite load_store_bytes_apart; [ reflexivity | ].
  rewrite length_vec_bytes. unfold aligned16 in *.
  Z.div_mod_to_equations. lia.
Qed.

(** C1: for four distinct 16-byte-aligned buffers, [store_4x4_tr] followed
    by [load_4x4_tr] on the same four pointers returns the four vectors
    that were stored. *)
Theorem store_load_4x4_tr_roundtrip
    (a b c d : v4) (pa pb pc pd : Z) (m : mem) :
  aligned16 pa -> aligned16 pb -> aligned16 pc -> aligned16 pd ->
  pa <> pb -> pa <> pc -> pa <> pd -> pb <> pc -> pb <> pd -> pc <> pd ->
  load_4x4_tr pa pb pc pd (store_4x4_tr a b c d pa pb pc pd m) = (a, b, c, d).
Proof.
  intros Ha Hb Hc Hd Hab Hac Had Hbc Hbd Hcd.
  unfold load_4x4_tr, store_4x4_tr.
  rewrite (vec_ld_st_same _ pd).
  rewrite (vec_ld_st_apart _ pc pd), (vec_ld_st_same _ pc) by auto.
  rewrite (vec_ld_st_apart _ pb pd), (vec_ld_st_apart _ pb pc),
    (vec_ld_st_same _ pb) by auto.
  rewrite (vec_ld_st_apart _ pa pd), (vec_ld_st_apart _ pa pc),
    (vec_ld_st_apart _ pa pb), (vec_ld_st_same _ pa) by auto.
  destruct a as [[a0 a1 a2 a3]], b as [[b0 b1 b2 b3]],
           c as [[c0 c1 c2 c3]], d as [[d0 d1 d2 d3]].
  reflexivity.
Qed.

Lemma store_load_4x4_tr_roundtrip_witness :
  load_4x4_tr 0 16 32 48 (store_4x4_tr ex_a ex_b ex_c ex_d 0 16 32 48 zero_mem)
  = (ex_a, ex_b, ex_c, ex_d).
Proof.
  apply (store_load_4x4_tr_roundtrip ex_a ex_b ex_c ex_d 0 16 32 48 zero_mem);
    solve [ reflexivity | discriminate ].
Defined.

Lemma store_float_outside (p k : Z) (x : lane) (m : mem) (q : Z) :
  ~ in_range (p + 4*k) 4 q -> store_float p k x m q = m q.
Proof. intros H. apply store_bytes_outside. exact H. Qed.

Lemma load_store_float_same (p k : Z) (x : lane) (m : mem) :
  load_float p k (store_float p k x m) = x.
Proof.
  unfold load_float, store_float.
  rewrite <- (length_lane_bytes x), load_store_bytes_same.
  apply lane_of_bytes_bytes.
Qed.

Lemma load_store_float_apart (p k q j : Z) (x : lane) (m : mem) :
  apart 4 (p + 4*k) (q + 4*j) ->
  load_float p k (store_float q j x m) = load_float p k m.
Proof.
  unfold apart, load_float, store_float. intros H.
  rewrite load_store_bytes_apart; [ reflexivity | ].
  rewrite length_lane_bytes. lia.
Qed.

(** Distinct 8-byte-aligned records do not overlap. *)
Lemma aligned8_apart (p q : Z) :
  aligned8 p -> aligned8 q -> p <> q -> apart 8 p q.
Proof.
  unfold aligned8, apart. intros Hp Hq Hpq.
  Z.div_mod_to_equations. lia.
Qed.

(** *** Vectors passed by reference *)

Lemma v4_at_store_float (a p k : Z) (x : lane) (m : mem) :
  separate a 16 (p + 4*k) 4 -> v4_at a (store_float p k x m) = v4_at a m.
Proof.
  unfold separate, v4_at, store_float. intros H.
  rewrite load_store_bytes_apart; [ reflexivity | ].
  rewrite length_lane_bytes. lia.
Qed.

(** C9, the claim as it stands fails: with [b] in the record at [pa], the
    four destination pointers being distinct and 8-byte aligned, the store
    of lane 0 of [a] changes [b] before [b] is read, so that field 1 of
    the record at [pa] receives 0 where lane 0 of [b] was 4, and [b] is
    not left unchanged. *)
Lemma store_4x2_tr_rereads_b :
  let m := store_4x1 ex_a 48 (store_4x1 ex_b 0 zero_mem) in
  let m' := store_4x2_tr 48 0 0 16 24 32 m in
  (v4_at 48 m = ex_a /\ v4_at 0 m = ex_b)
  /\ (aligned8 0 /\ aligned8 16 /\ aligned8 24 /\ aligned8 32)
  /\ records_apart 8 0 16 24 32
  /\ load_float 0 0 m' = elt (v (v4_at 48 m)) 0
  /\ load_float 0 1 m' = elt (v (v4_at 48 m)) 0
  /\ load_float 0 1 m' <> elt (v (v4_at 0 m)) 0
  /\ v4_at 0 m' <> v4_at 0 m.
Proof.
  intros m m'.
  split; [ split; reflexivity | ].
  split; [ repeat split; reflexivity | ].
  split; [ unfold records_apart, apart; lia | ].
  split; [ reflexivity | ].
  split; [ reflexivity | ].
  split; vm_compute; discriminate.
Qed.

(** C9, amended: [store_4x2_tr] changes no byte outside the eight bytes
    (fields 0 and 1) at each of its four destination pointers; when the
    four destination records overlap neither each other nor the objects
    [a] and [b], field 0 of destination [i] holds lane [i] of [a], field 1
    holds lane [i] of [b], and [a] and [b] are unchanged. *)
Theorem store_4x2_tr_frame (a b pa pb pc pd : Z) (m : mem) :
  let m' := store_4x2_tr a b pa pb pc pd m in
  (forall q : Z,
     ~ in_range pa 8 q -> ~ in_range pb 8 q ->
     ~ in_range pc 8 q -> ~ in_range pd 8 q -> m' q = m q)
  /\ (records_apart 8 pa pb pc pd ->
      clear_of a 8 pa pb pc pd -> clear_of b 8 pa pb pc pd ->
      (load_float pa 0 m' = elt (v (v4_at a m)) 0
       /\ load_float pa 1 m' = elt (v (v4_at b m)) 0)
      /\ (load_float pb 0 m' = elt (v (v4_at a m)) 1
          /\ load_float pb 1 m' = elt (v (v4_at b m)) 1)
      /\ (load_float pc 0 m' = elt (v (v4_at a m)) 2
          /\ load_float pc 1 m' = elt (v (v4_at b m)) 2)
      /\ (load_float pd 0 m' = elt (v (v4_at a m)) 3
          /\ load_float pd 1 m' = elt (v (v4_at b m)) 3)
      /\ v4_at a m' = v4_at a m
      /\ v4_at b m' = v4_at b m).
Proof.
  intros m'. subst m'. unfold store_4x2_tr. cbv zeta. split.
  - unfold in_range. intros q Ha Hb Hc Hd.
    rewrite !store_float_outside by (unfold in_range; lia). reflexivity.
  - unfold records_apart, clear_of, apart, separate.
    intros [Hab [Hac [Had [Hbc [Hbd Hcd]]]]] [Aa [Ab [Ac Ad]]] [Ba [Bb [Bc Bd]]].
    rewrite !v4_at_store_float by (unfold separate; lia).
    repeat split;
      first
        [ rewrite ?load_store_float_apart by (unfold apart; lia);
          rewrite load_store_float_same; reflexivity
        | reflexivity ].
Qed.

Lemma store_4x2_tr_frame_witness :
  let m := store_4x1 ex_a 48 (store_4x1 ex_b 64 zero_mem) in
  let m' := store_4x2_tr 48 64 0 8 16 24 m in
  m' 32 = m 32
  /\ load_float 8 0 m' = elt (v ex_a) 1
  /\ load_float 8 1 m' = elt (v ex_b) 1
  /\ v4_at 64 m' = ex_b.
Proof.
  intros m m'.
  destruct (store_4x2_tr_frame 48 64 0 8 16 24 m) as [Hframe Hfields].
  split.
  - apply Hframe; unfold in_range; lia.
  - destruct Hfields as [_ [[H0 H1] [_ [_ [_ Hb]]]]];
      try (unfold records_apart, clear_of, apart, separate; lia).
    split; [ exact H0 | split; [ exact H1 | exact Hb ] ].
Defined.

(** ** Division and the refined reciprocal *)

Lemma elt_one (i : Z) : elt _one i = elt _one 0.
Proof. destruct i as [ | [ [ | | ] | [ | | ] | ] | ]; reflexivity. Qed.

Lemma elt_zero (i : Z) : elt _zero i = elt _zero 0.
Proof. destruct i as [ | [ [ | | ] | [ | | ] | ] | ]; reflexivity. Qed.

Lemma elt_half (i : Z) : elt _half i = elt _half 0.
Proof. destruct i as [ | [ [ | | ] | [ | | ] | ] | ]; reflexivity. Qed.

(** Lane [i] of [rcp(a)] is two steps from the estimate of lane [i]. *)
Lemma elt_rcp (U : fpu) (a : v4float) (i : Z) :
  elt (v (rcp a)) i =
  rcp_step (rcp_step (fp_re (elt (v a) i)) (elt (v a) i)) (elt (v a) i).
Proof.
  unfold rcp, rcp_step, vec_madd, vec_nmsub, vec_re. simpl v.
  rewrite !elt_vmap3, !elt_vmap, !elt_one. reflexivity.
Qed.

Lemma elt_rsqrt (U : fpu) (a : v4float) (i : Z) :
  elt (v (rsqrt a)) i =
  rsqrt_step (rsqrt_step (fp_rsqrte (elt (v a) i)) (elt (v a) i)) (elt (v a) i).
Proof.
  unfold rsqrt, rsqrt_step, vec_madd, vec_nmsub, vec_rsqrte. simpl v.
  rewrite !elt_vmap3, !elt_vmap, !elt_one, !elt_zero, !elt_half. reflexivity.
Qed.

(** C4: on every floating-point unit, [n / a] is bit for bit [n * rcp(a)];
    lane by lane it is one fused multiply of the lane of [n] by the
    estimate of the reciprocal after two Newton-Raphson steps. The unit is
    asked for the estimate and for fused operations only, never for a
    division. *)
Theorem div_is_mul_rcp (U : fpu) (n a : v4float) :
  v4float_div n a = v4float_mul n (rcp a)
  /\ forall i : Z,
       let x := elt (v a) i in
       elt (v (v4float_div n a)) i
       = fp_madd (elt (v n) i) (rcp_step (rcp_step (fp_re x) x) x) (elt _zero 0).
Proof.
  split.
  - unfold v4float_div, v4float_mul, rcp. reflexivity.
  - intros i x. change (v4float_div n a) with (v4float_mul n (rcp a)).
    unfold v4float_mul, vec_madd.
    change (v (V4 ?y)) with y.
    rewrite elt_vmap3, elt_rcp, elt_zero. reflexivity.
Qed.

(** ** Accuracy of the refined reciprocal and reciprocal square root *)

Section Accuracy.
Local Open Scope R_scope.

Lemma Rabs_one_plus (x e : R) : Rabs x <= e -> Rabs (1 + x) <= 1 + e.
Proof.
  intros H. eapply Rle_trans; [ apply Rabs_triang | ].
  rewrite Rabs_R1. lra.
Qed.

Lemma Rabs_mult_le (x y a b : R) :
  Rabs x <= a -> Rabs y <= b -> Rabs (x * y) <= a * b.
Proof.
  intros Hx Hy. rewrite Rabs_mult.
  apply Rmult_le_compat; auto using Rabs_pos.
Qed.

Lemma Rabs_plus_le (x y a b : R) :
  Rabs x <= a -> Rabs y <= b -> Rabs (x + y) <= a + b.
Proof.
  intros Hx Hy. eapply Rle_trans; [ apply Rabs_triang | lra ].
Qed.

(** A relative rounding error of [u] on [x], seen after scaling by [r > 0]. *)
Lemma Rabs_scaled_error (x' x r u b : R) :
  0 < r -> 0 <= u ->
  Rabs (x' - x) <= u * Rabs x -> Rabs (x * r) <= b ->
  Rabs ((x' - x) * r) <= u * b.
Proof.
  intros Hr Hu Hx Hb.
  rewrite Rabs_mult, (Rabs_pos_eq r) by lra.
  eapply Rle_trans.
  - apply Rmult_le_compat_r; [ lra | exact Hx ].
  - rewrite Rmult_assoc. apply Rmult_le_compat_l; [ assumption | ].
    rewrite <- (Rabs_pos_eq r) at 1 by lra. rewrite <- Rabs_mult. exact Hb.
Qed.

Lemma rsqrt_step_bound (A r y q t h y' e u : R) :
  0 < r -> A = r * r -> 0 <= e -> 0 <= u ->
  Rabs (y * r - 1) <= e ->
  Rabs (q - (y * y + 0)) <= u * Rabs (y * y + 0) ->
  Rabs (t - - (q * A - 1)) <= u * Rabs (- (q * A - 1)) ->
  Rabs (h - (y * (1 / 2) + 0)) <= u * Rabs (y * (1 / 2) + 0) ->
  Rabs (y' - (t * h + y)) <= u * Rabs (t * h + y) ->
  Rabs (y' * r - 1) <= rsqrt_bound e u.
Proof.
  intros Hr HA He Hu Hy Hq Ht Hh Hy'. subst A.
  rewrite Rplus_0_r in Hq, Hh.
  set (e0 := y * r - 1) in *.
  assert (Hyr : Rabs (y * r) <= 1 + e).
  { replace (y * r) with (1 + e0) by (unfold e0; ring).
    apply Rabs_one_plus. exact Hy. }
  (* the rounded square *)
  set (dq := q - y * y) in *.
  assert (Hdq : Rabs (dq * (r * r)) <= u * ((1 + e) * (1 + e))).
  { apply Rabs_scaled_error; try assumption.
    - apply Rmult_lt_0_compat; assumption.
    - replace (y * y * (r * r)) with ((y * r) * (y * r)) by ring.
      apply Rabs_mult_le; assumption. }
  (* the residual 1 - q*A *)
  set (T := - (q * (r * r) - 1)) in *.
  assert (ET : T = - (2 * e0 + e0 * e0) + - (dq * (r * r))).
  { unfold T, dq, e0. ring. }
  set (t0 := (2 * e + e * e) + u * ((1 + e) * (1 + e))).
  assert (HT : Rabs T <= t0).
  { rewrite ET. unfold t0. apply Rabs_plus_le.
    - rewrite Rabs_Ropp. apply Rabs_plus_le.
      + rewrite Rabs_mult, (Rabs_pos_eq 2) by lra.
        apply Rmult_le_compat_l; [ lra | assumption ].
      + apply Rabs_mult_le; assumption.
    - rewrite Rabs_Ropp. exact Hdq. }
  assert (Ht0 : 0 <= t0).
  { eapply Rle_trans; [ apply Rabs_pos | exact HT ]. }
  set (dt := t - T) in *.
  assert (Hdt : Rabs dt <= u * t0).
  { eapply Rle_trans; [ exact Ht | ]. apply Rmult_le_compat_l; assumption. }
  assert (Htabs : Rabs t <= t0 + u * t0).
  { replace t with (T + dt) by (unfold dt; ring).
    apply Rabs_plus_le; assumption. }
  set (tau := - (dq * (r * r)) + dt).
  assert (Htau : Rabs tau <= u * ((1 + e) * (1 + e)) + u * t0).
  { unfold tau. apply Rabs_plus_le; [ rewrite Rabs_Ropp | ]; assumption. }
  (* the rounded half *)
  set (dh := h - y * (1 / 2)) in *.
  assert (Hdh : Rabs (dh * r) <= u * ((1 + e) * / 2)).
  { apply Rabs_scaled_error; try assumption.
    replace (y * (1 / 2) * r) with ((y * r) * / 2) by field.
    rewrite Rabs_mult, (Rabs_pos_eq (/ 2)) by lra.
    apply Rmult_le_compat_r; [ lra | assumption ]. }
  (* the unrounded update *)
  set (w := t * h + y) in *.
  assert (Ew : w * r - 1 =
               - (3 / 2 * (e0 * e0) + 1 / 2 * (e0 * e0 * e0))
               + (tau * ((1 + e0) * / 2) + t * (dh * r))).
  { unfold w, tau, dh, dt. rewrite ET. unfold dq, e0. field. }
  set (g := (3 / 2 * (e * e) + 1 / 2 * (e * e * e))
            + ((u * ((1 + e) * (1 + e)) + u * t0) * ((1 + e) * / 2)
               + (t0 + u * t0) * (u * ((1 + e) * / 2)))).
  assert (Hw : Rabs (w * r - 1) <= g).
  { rewrite Ew. unfold g. apply Rabs_plus_le.
    - rewrite Rabs_Ropp. apply Rabs_plus_le.
      + rewrite Rabs_mult, (Rabs_pos_eq (3 / 2)) by lra.
        apply Rmult_le_compat_l; [ lra | ]. apply Rabs_mult_le; assumption.
      + rewrite Rabs_mult, (Rabs_pos_eq (1 / 2)) by lra.
        apply Rmult_le_compat_l; [ lra | ].
        apply Rabs_mult_le; [ apply Rabs_mult_le | ]; assumption.
    - apply Rabs_plus_le.
      + apply Rabs_mult_le; [ assumption | ].
        rewrite Rabs_mult, (Rabs_pos_eq (/ 2)) by lra.
        apply Rmult_le_compat_r; [ lra | apply Rabs_one_plus; assumption ].
      + apply Rabs_mult_le; assumption. }
  assert (HwA : Rabs (w * r) <= 1 + g).
  { replace (w * r) with (1 + (w * r - 1)) by ring.
    apply Rabs_one_plus. exact Hw. }
  replace (y' * r - 1) with ((w * r - 1) + (y' - w) * r) by ring.
  unfold rsqrt_bound. fold t0. fold g.
  apply Rabs_plus_le; [ exact Hw | ].
  apply Rabs_scaled_error; assumption.
Qed.

Lemma rsqrt_two_steps_small :
  rsqrt_bound (/ 4096) (/ 16777216) <= 2 / 10000000
  /\ rsqrt_bound (2 / 10000000) (/ 16777216) < 1 / 1000000.
Proof. unfold rsqrt_bound. split; lra. Qed.

Lemma rcp_step_bound (A x t x' e u : R) :
  0 < A -> 0 <= e -> 0 <= u ->
  Rabs (x * A - 1) <= e ->
  Rabs (t - - (x * A - 1)) <= u * Rabs (- (x * A - 1)) ->
  Rabs (x' - (t * x + x)) <= u * Rabs (t * x + x) ->
  Rabs (x' * A - 1) <= rcp_bound e u.
Proof.
  intros HA He Hu Hx Ht Hx'.
  set (e0 := x * A - 1) in *.
  set (d := t - - e0) in *.
  set (w := t * x + x) in *.
  rewrite Rabs_Ropp in Ht.
  assert (Hd : Rabs d <= u * e).
  { eapply Rle_trans; [ exact Ht | ]. apply Rmult_le_compat_l; assumption. }
  assert (Ew : w * A - 1 = - (e0 * e0) + d * (1 + e0)).
  { unfold w, d, e0. ring. }
  assert (Hw : Rabs (w * A - 1) <= e * e + (u * e) * (1 + e)).
  { rewrite Ew. apply Rabs_plus_le.
    - rewrite Rabs_Ropp. apply Rabs_mult_le; assumption.
    - apply Rabs_mult_le; [ assumption | apply Rabs_one_plus; assumption ]. }
  assert (HwA : Rabs (w * A) <= 1 + (e * e + (u * e) * (1 + e))).
  { replace (w * A) with (1 + (w * A - 1)) by ring.
    apply Rabs_one_plus. exact Hw. }
  assert (Hr : Rabs ((x' - w) * A) <= u * (1 + (e * e + (u * e) * (1 + e)))).
  { rewrite Rabs_mult, (Rabs_pos_eq A) by lra.
    eapply Rle_trans.
    - apply Rmult_le_compat_r; [ lra | exact Hx' ].
    - rewrite Rmult_assoc. apply Rmult_le_compat_l; [ assumption | ].
      rewrite <- (Rabs_pos_eq A) at 1 by lra. rewrite <- Rabs_mult. exact HwA. }
  replace (x' * A - 1) with ((w * A - 1) + (x' - w) * A) by ring.
  unfold rcp_bound. apply Rabs_plus_le; assumption.
Qed.

Lemma rcp_two_steps_small :
  rcp_bound (/ 4096) (/ 16777216) <= 2 / 10000000
  /\ rcp_bound (2 / 10000000) (/ 16777216) < 1 / 1000000.
Proof. unfold rcp_bound. split; lra. Qed.

(** *** Real values of elements *)

Lemma powerRZ_2_pos (p : positive) : powerRZ 2 (Zpos p) = IZR (2 ^ Zpos p).
Proof.
  unfold powerRZ. rewrite pow_IZR, positive_nat_Z. reflexivity.
Qed.

Lemma powerRZ_2_neg (p : positive) : powerRZ 2 (Zneg p) = / IZR (2 ^ Zpos p).
Proof.
  unfold powerRZ. rewrite pow_IZR, positive_nat_Z. reflexivity.
Qed.

(** Replaces the decoding of a closed element by its value and turns the
    powers of two into integer constants. *)
Ltac eval_lane_R :=
  unfold lane_R;
  repeat match goal with
  | |- context [b32_decode ?x] =>
      let y := eval vm_compute in (b32_decode x) in
      replace (b32_decode x) with y by (vm_compute; reflexivity)
  end;
  unfold SF2R;
  rewrite ?powerRZ_2_pos, ?powerRZ_2_neg;
  repeat match goal with
  | |- context [IZR (2 ^ Zpos ?p)] =>
      let c := eval vm_compute in (2 ^ Zpos p)%Z in
      change (2 ^ Zpos p)%Z with c
  end.

Lemma lane_R_one : lane_R (elt _one 0) = 1.
Proof. eval_lane_R. lra. Qed.

Lemma lane_R_zero : lane_R (elt _zero 0) = 0.
Proof. eval_lane_R. lra. Qed.

Lemma lane_R_half : lane_R (elt _half 0) = 1 / 2.
Proof. eval_lane_R. lra. Qed.

(** *** The range of single precision *)

Lemma b32_decode_finite (x : lane) (s : bool) (m : positive) (e : Z) :
  b32_decode x = S754_finite s m e -> (Zpos m < 2 ^ 24)%Z /\ (e <= 104)%Z.
Proof.
  unfold b32_decode.
  set (w := lane_unsigned x).
  assert (Hf : (0 <= Z.land w (Z.ones 23) < 2 ^ 23)%Z).
  { rewrite Z.land_ones by lia. apply Z.mod_pos_bound. lia. }
  assert (He : (0 <= Z.land (Z.shiftr w 23) 255 < 256)%Z).
  { change 255%Z with (Z.ones 8). rewrite Z.land_ones by lia.
    apply Z.mod_pos_bound. lia. }
  revert Hf He.
  generalize (Z.land w (Z.ones 23)) (Z.land (Z.shiftr w 23) 255) (Z.testbit w 31).
  clear w. intros f k sg Hf He.
  destruct (k =? 0)%Z eqn:E0.
  - destruct f as [ | p | p ]; intros H; inversion H. lia.
  - destruct (k =? 255)%Z eqn:E1.
    + destruct (f =? 0)%Z; discriminate.
    + apply Z.eqb_neq in E1.
      destruct (f + 2 ^ 23)%Z as [ | p | p ] eqn:Ef; intros H; inversion H.
      lia.
Qed.

Lemma powerRZ_2_le (a b : Z) : (a <= b)%Z -> powerRZ 2 a <= powerRZ 2 b.
Proof.
  intros Hab. replace b with (a + (b - a))%Z by lia.
  rewrite powerRZ_add by lra.
  assert (H1 : 1 <= powerRZ 2 (b - a)).
  { destruct (b - a)%Z as [ | p | p ] eqn:E.
    - simpl. lra.
    - simpl. apply pow_R1_Rle. lra.
    - lia. }
  assert (H0 : 0 < powerRZ 2 a) by (apply powerRZ_lt; lra).
  rewrite <- (Rmult_1_r (powerRZ 2 a)) at 1.
  apply Rmult_le_compat_l; lra.
Qed.

(** Every finite single-precision number is below [2^128] in magnitude. *)
Lemma lane_R_below_2_128 (x : lane) :
  lane_finite x = true ->
  Rabs (lane_R x) < 340282366920938463463374607431768211456.
Proof.
  unfold lane_finite, lane_R.
  destruct (b32_decode x) as [ s | s | | s m e ] eqn:D; try discriminate; intros _.
  - simpl. rewrite Rabs_R0. lra.
  - apply b32_decode_finite in D. destruct D as [Hm He].
    unfold SF2R.
    rewrite Rabs_mult, <- abs_IZR.
    replace (Z.abs (if s then Z.neg m else Z.pos m)) with (Z.pos m)
      by (destruct s; reflexivity).
    assert (Hp : 0 < powerRZ 2 e) by (apply powerRZ_lt; lra).
    rewrite (Rabs_pos_eq (powerRZ 2 e)) by lra.
    assert (Hp' : powerRZ 2 e <= powerRZ 2 104) by (apply powerRZ_2_le; exact He).
    rewrite powerRZ_2_pos in Hp'.
    apply IZR_lt in Hm.
    change (2 ^ 24)%Z with 16777216%Z in Hm.
    change (2 ^ 104)%Z with 20282409603651670423947251286016%Z in Hp'.
    assert (H0 : 0 < IZR (Z.pos m)) by (apply IZR_lt; lia).
    apply Rlt_le_trans with (16777216 * powerRZ 2 e).
    + apply Rmult_lt_compat_r; assumption.
    + apply Rle_trans with (16777216 * 20282409603651670423947251286016).
      * apply Rmult_le_compat_l; [ lra | exact Hp' ].
      * lra.
Qed.

(** *** The smallest subnormal number *)

Lemma tiny_positive :
  lane_finite (elt (v tiny) 0) = true /\ 0 < lane_R (elt (v tiny) 0).
Proof. split; [ reflexivity | eval_lane_R; lra ]. Qed.

(** The reciprocal of [2^-149] is [2^149], above every finite
    single-precision number: no unit can return an accurate lane. *)
Lemma tiny_reciprocal :
  / lane_R (elt (v tiny) 0) = 713623846352979940529142984724747568191373312.
Proof. eval_lane_R. field. Qed.

Lemma rcp_inaccurate_at_tiny :
  lane_finite (elt (v tiny) 0) = true
  /\ 0 < lane_R (elt (v tiny) 0)
  /\ ~ (exists U : fpu, rcp_accurate tiny 0).
Proof.
  split; [ apply tiny_positive | split; [ apply tiny_positive | ] ].
  intros [U [Hfin Herr]].
  apply lane_R_below_2_128 in Hfin.
  rewrite tiny_reciprocal in Herr. unfold rel_error in Herr.
  set (y := lane_R (elt (v (rcp tiny)) 0)) in *.
  set (c := 713623846352979940529142984724747568191373312) in *.
  pose proof (Rle_abs (c - y)) as H1.
  rewrite Rabs_minus_sym in H1.
  apply Rabs_def2 in Hfin. destruct Hfin as [H2 H3].
  assert (H4 : Rabs (y - c) < c * (1 / 1000000)).
  { apply (Rmult_lt_compat_r c) in Herr; [ | unfold c; lra ].
    unfold Rdiv in Herr. rewrite Rmult_assoc, Rinv_l in Herr by (unfold c; lra).
    lra. }
  unfold c in *. lra.
Qed.

(** On the reference unit the estimate of [1/2^-149] is +infinity and both
    refinements return NaN. *)
Example rcp_rsqrt_tiny_nan :
  b32_decode (elt (v (rcp_approx (U := ref_fpu) tiny)) 0) = S754_infinity false
  /\ b32_decode (elt (v (rcp (U := ref_fpu) tiny)) 0) = S754_nan
  /\ b32_decode (elt (v (rsqrt (U := ref_fpu) tiny)) 0) = S754_nan.
Proof. vm_compute. auto. Qed.

(** *** The refinement, lane by lane *)

Lemma rel_error_inv (y r : R) : 0 < r -> rel_error y (/ r) = Rabs (y * r - 1).
Proof.
  intros Hr. unfold rel_error, Rdiv. rewrite Rinv_inv.
  rewrite <- (Rabs_pos_eq r) at 2 by lra.
  rewrite <- Rabs_mult. f_equal. field. lra.
Qed.

(** An estimate within [u] of [1/r], seen as an error on [y*r]. *)
Lemma estimate_error (y r u : R) :
  0 < r -> 0 <= u -> Rabs (y - / r) <= u * Rabs (/ r) -> Rabs (y * r - 1) <= u.
Proof.
  intros Hr Hu H.
  replace (y * r - 1) with ((y - / r) * r) by (field; lra).
  rewrite <- (Rmult_1_r u).
  apply Rabs_scaled_error; try assumption.
  rewrite Rinv_l by lra. rewrite Rabs_R1. lra.
Qed.

Lemma rcp_step_error (U : fpu) (b a : lane) (e : R) :
  0 < lane_R a -> 0 <= e ->
  Rabs (lane_R b * lane_R a - 1) <= e ->
  rcp_step_rounds b a ->
  lane_finite (rcp_step b a) = true
  /\ Rabs (lane_R (rcp_step b a) * lane_R a - 1) <= rcp_bound e u24.
Proof.
  intros Ha He Hb [[_ Ht] [Hfin Hx]].
  rewrite lane_R_one in Ht.
  split; [ exact Hfin | ].
  unfold rcp_step.
  apply (rcp_step_bound (lane_R a) (lane_R b)
           (lane_R (fp_nmsub b a (elt _one 0)))); try assumption.
  unfold u24. lra.
Qed.

Lemma rsqrt_step_error (U : fpu) (b a : lane) (e : R) :
  0 < lane_R a -> 0 <= e ->
  Rabs (lane_R b * R_sqrt.sqrt (lane_R a) - 1) <= e ->
  rsqrt_step_rounds b a ->
  lane_finite (rsqrt_step b a) = true
  /\ Rabs (lane_R (rsqrt_step b a) * R_sqrt.sqrt (lane_R a) - 1)
     <= rsqrt_bound e u24.
Proof.
  intros Ha He Hb [[_ Hq] [[_ Ht] [[_ Hh] [Hfin Hy]]]].
  rewrite lane_R_one in Ht. rewrite lane_R_zero in Hq, Hh.
  rewrite lane_R_half in Hh.
  split; [ exact Hfin | ].
  unfold rsqrt_step.
  apply (rsqrt_step_bound (lane_R a) (R_sqrt.sqrt (lane_R a)) (lane_R b)
           (lane_R (fp_madd b b (elt _zero 0)))
           (lane_R (fp_nmsub (fp_madd b b (elt _zero 0)) a (elt _one 0)))
           (lane_R (fp_madd b (elt _half 0) (elt _zero 0))));
    try assumption.
  - apply sqrt_lt_R0. exact Ha.
  - symmetry. apply sqrt_sqrt. lra.
  - unfold u24. lra.
Qed.

(** C5, amended: for a finite lane [x > 0] of [a], when the estimate of
    the unit is finite and within one part in 4096 and each fused
    operation of the two Newton-Raphson steps returns its exact result
    rounded to nearest (relative error at most [2^-24]), lane [i] of
    [rcp(a)] is finite and within one part in a million of [1/x]; the same
    holds of [rsqrt(a)] and [1/sqrt(x)]. *)
Theorem refined_estimates_accurate (U : fpu) (a : v4float) (i : Z) :
  let x := elt (v a) i in
  lane_finite x = true -> 0 < lane_R x ->
  (within (/ 4096) (fp_re x) (/ lane_R x) ->
   rcp_step_rounds (fp_re x) x ->
   rcp_step_rounds (rcp_step (fp_re x) x) x ->
   rcp_accurate a i)
  /\ (within (/ 4096) (fp_rsqrte x) (/ R_sqrt.sqrt (lane_R x)) ->
      rsqrt_step_rounds (fp_rsqrte x) x ->
      rsqrt_step_rounds (rsqrt_step (fp_rsqrte x) x) x ->
      rsqrt_accurate a i).
Proof.
  intros x Hfin Hpos. split.
  - intros [_ Hest] H1 H2.
    unfold rcp_accurate, lane_accurate. rewrite elt_rcp. fold x.
    apply estimate_error in Hest; [ | assumption | lra ].
    destruct (rcp_step_error U _ _ (/ 4096) Hpos ltac:(lra) Hest H1) as [_ E1].
    destruct rcp_two_steps_small as [B1 B2].
    assert (E1' : Rabs (lane_R (rcp_step (fp_re x) x) * lane_R x - 1)
                  <= 2 / 10000000) by (unfold u24 in E1; lra).
    destruct (rcp_step_error U _ _ (2 / 10000000) Hpos ltac:(lra) E1' H2) as [F2 E2].
    split; [ exact F2 | ].
    rewrite rel_error_inv by assumption. unfold u24 in E2. lra.
  - intros [_ Hest] H1 H2.
    unfold rsqrt_accurate, lane_accurate. rewrite elt_rsqrt. fold x.
    assert (Hr : 0 < R_sqrt.sqrt (lane_R x)) by (apply sqrt_lt_R0; assumption).
    apply estimate_error in Hest; [ | assumption | lra ].
    destruct (rsqrt_step_error U _ _ (/ 4096) Hpos ltac:(lra) Hest H1) as [_ E1].
    destruct rsqrt_two_steps_small as [B1 B2].
    assert (E1' : Rabs (lane_R (rsqrt_step (fp_rsqrte x) x)
                        * R_sqrt.sqrt (lane_R x) - 1)
                  <= 2 / 10000000) by (unfold u24 in E1; lra).
    destruct (rsqrt_step_error U _ _ (2 / 10000000) Hpos ltac:(lra) E1' H2) as [F2 E2].
    split; [ exact F2 | ].
    rewrite rel_error_inv by assumption. unfold u24 in E2. lra.
Qed.

(** *** The reference unit on 2 and 3 *)

(** On the reference unit the estimate of [1/2] refined twice is [0.5], and
    [rcp(3)] is [0x3eaaaaab], the single-precision number nearest to 1/3. *)
Example rcp_two_three :
  elt (v (rcp (U := ref_fpu) twos)) 0 = elt _half 0
  /\ lane_unsigned (elt (v (rcp_approx (U := ref_fpu) threes)) 0) = 0x3eaaa800%Z
  /\ lane_unsigned (elt (v (rcp (U := ref_fpu) threes)) 0) = 0x3eaaaaab%Z.
Proof. vm_compute. auto. Qed.


Lemma Rabs_rel_sq (y r u : R) :
  0 <= u -> (y - r) * (y - r) <= (u * r) * (u * r) -> Rabs (y - r) <= u * Rabs r.
Proof.
  intros Hu H.
  rewrite <- (Rabs_pos_eq u) at 1 by exact Hu. rewrite <- Rabs_mult.
  apply Rsqr_le_abs_0. exact H.
Qed.

Lemma estimate_error_conv (y r u : R) :
  0 < r -> Rabs (y * r - 1) <= u -> Rabs (y - / r) <= u * Rabs (/ r).
Proof.
  intros Hr H.
  assert (Hi : 0 < / r) by (apply Rinv_0_lt_compat; exact Hr).
  rewrite (Rabs_pos_eq (/ r)) by lra.
  replace (y - / r) with ((y * r - 1) * / r) by (field; lra).
  rewrite Rabs_mult, (Rabs_pos_eq (/ r)) by lra.
  apply Rmult_le_compat_r; lra.
Qed.

Lemma sqrt_between (x lo hi : R) :
  0 <= lo -> 0 <= hi -> lo * lo <= x -> x <= hi * hi ->
  lo <= R_sqrt.sqrt x <= hi.
Proof.
  intros Hlo Hhi H1 H2. split.
  - rewrite <- (sqrt_square lo) by exact Hlo. apply sqrt_le_1_alt. exact H1.
  - rewrite <- (sqrt_square hi) by exact Hhi. apply sqrt_le_1_alt. exact H2.
Qed.

(** Checks that a closed element is finite and within the given relative
    error of a closed rational. *)
Ltac check_rounds :=
  split;
  [ vm_compute; reflexivity
  | apply Rabs_rel_sq; [ unfold u24; lra | unfold u24; eval_lane_R; lra ] ].

Lemma refined_estimates_accurate_witness :
  lane_finite (elt (v threes) 0) = true
  /\ 0 < lane_R (elt (v threes) 0)
  /\ rcp_accurate (U := ref_fpu) threes 0
  /\ rsqrt_accurate (U := ref_fpu) threes 0.
Proof.
  assert (Hfin : lane_finite (elt (v threes) 0) = true) by reflexivity.
  assert (Hpos : 0 < lane_R (elt (v threes) 0)) by (eval_lane_R; lra).
  destruct (refined_estimates_accurate ref_fpu threes 0 Hfin Hpos) as [Hrcp Hrsqrt].
  split; [ exact Hfin | split; [ exact Hpos | split ] ].
  - apply Hrcp.
    + check_rounds.
    + split; unfold nmsub_rounds, madd_rounds; check_rounds.
    + split; unfold nmsub_rounds, madd_rounds; check_rounds.
  - apply Hrsqrt.
    + split; [ vm_compute; reflexivity | ].
      assert (Hs : 17320508 / 10000000 <= R_sqrt.sqrt (lane_R (elt (v threes) 0))
                   <= 17320509 / 10000000).
      { apply sqrt_between; eval_lane_R; lra. }
      apply estimate_error_conv; [ lra | ].
      set (s := R_sqrt.sqrt (lane_R (elt (v threes) 0))) in *.
      apply Rabs_le. eval_lane_R. lra.
    + repeat split; try (vm_compute; reflexivity);
        apply Rabs_rel_sq; try (unfold u24; lra); unfold u24; eval_lane_R; lra.
    + repeat split; try (vm_compute; reflexivity);
        apply Rabs_rel_sq; try (unfold u24; lra); unfold u24; eval_lane_R; lra.
Defined.

End Accuracy.

(** * Further properties *)

(** ** Elements as integers *)

Lemma byte_unsigned_of_Z (z : Z) : byte_unsigned (byte_of_Z z) = z mod 256.
Proof.
  unfold byte_of_Z, byte_unsigned.
  pose proof (Z.mod_pos_bound z 256 ltac:(lia)) as Hr.
  destruct (Byte.of_N (Z.to_N (z mod 256))) as [x | ] eqn:E.
  - apply Byte.to_of_N in E. rewrite E. apply Z2N.id. lia.
  - apply Byte.of_N_None_iff in E. lia.
Qed.

Lemma lane_unsigned_of_Z (z : Z) : lane_unsigned (lane_of_Z z) = z mod 2 ^ 32.
Proof.
  unfold lane_unsigned, lane_of_Z. cbn [by0 by1 by2 by3].
  rewrite !byte_unsigned_of_Z, !Z.shiftr_div_pow2 by lia.
  assert (E1 : z mod 2 ^ 32 = z mod 2 ^ 24 + 2 ^ 24 * ((z / 2 ^ 24) mod 256)).
  { change (2 ^ 32) with (2 ^ 24 * 256). apply Z.rem_mul_r; lia. }
  assert (E2 : z mod 2 ^ 24 = z mod 2 ^ 16 + 2 ^ 16 * ((z / 2 ^ 16) mod 256)).
  { change (2 ^ 24) with (2 ^ 16 * 256). apply Z.rem_mul_r; lia. }
  assert (E3 : z mod 2 ^ 16 = z mod 2 ^ 8 + 2 ^ 8 * ((z / 2 ^ 8) mod 256)).
  { change (2 ^ 16) with (2 ^ 8 * 256). apply Z.rem_mul_r; lia. }
  change (2 ^ 8) with 256 in *. lia.
Qed.

Lemma lane_unsigned_inj (x y : lane) : lane_unsigned x = lane_unsigned y -> x = y.
Proof.
  intros H. rewrite <- (lane_of_Z_unsigned x), <- (lane_of_Z_unsigned y), H.
  reflexivity.
Qed.

Lemma lane_of_Z_mod (z : Z) : lane_of_Z (z mod 2 ^ 32) = lane_of_Z z.
Proof.
  apply lane_unsigned_inj. rewrite !lane_unsigned_of_Z.
  apply Z.mod_mod. lia.
Qed.

Lemma lane_of_Z_eq (z w : Z) : z mod 2 ^ 32 = w mod 2 ^ 32 -> lane_of_Z z = lane_of_Z w.
Proof.
  intros H. rewrite <- (lane_of_Z_mod z), <- (lane_of_Z_mod w), H. reflexivity.
Qed.

Lemma lane_signed_range (x : lane) : - 2 ^ 31 <= lane_signed x < 2 ^ 31.
Proof.
  unfold lane_signed. pose proof (lane_unsigned_range x) as H.
  destruct (lane_unsigned x <? 2 ^ 31) eqn:E;
    [ apply Z.ltb_lt in E | apply Z.ltb_ge in E ]; lia.
Qed.

Lemma lane_signed_mod (x : lane) : lane_signed x mod 2 ^ 32 = lane_unsigned x.
Proof.
  unfold lane_signed. pose proof (lane_unsigned_range x) as H.
  destruct (lane_unsigned x <? 2 ^ 31).
  - apply Z.mod_small. lia.
  - replace (lane_unsigned x - 2 ^ 32) with (lane_unsigned x + (-1) * 2 ^ 32) by lia.
    rewrite Z.mod_add by lia. apply Z.mod_small. lia.
Qed.

Lemma lane_of_Z_signed (x : lane) : lane_of_Z (lane_signed x) = x.
Proof.
  rewrite <- lane_of_Z_mod, lane_signed_mod. apply lane_of_Z_unsigned.
Qed.

Lemma lane_signed_of_Z (z : Z) :
  - 2 ^ 31 <= z < 2 ^ 31 -> lane_signed (lane_of_Z z) = z.
Proof.
  intros Hz. unfold lane_signed. rewrite lane_unsigned_of_Z.
  change (2 ^ 32) with 4294967296 in *. change (2 ^ 31) with 2147483648 in *.
  destruct (z mod 4294967296 <? 2147483648) eqn:E;
    [ apply Z.ltb_lt in E | apply Z.ltb_ge in E ];
    Z.div_mod_to_equations; lia.
Qed.

Lemma lane_signed_inj (x y : lane) : lane_signed x = lane_signed y -> x = y.
Proof.
  intros H. rewrite <- (lane_of_Z_signed x), <- (lane_of_Z_signed y), H.
  reflexivity.
Qed.

(** ** The whole permutation table *)

Lemma v4_eq (a b : v4) : v a = v b -> a = b.
Proof. destruct a, b. simpl. intros ->. reflexivity. Qed.

(** X1: for lane indices [i0 i1 i2 i3], entry [i0 + i1*4 + i2*16 + i3*64]
    of the table is [P(i0,i1,i2,i3)] and lane [k] of
    [shuffle(a,i0,i1,i2,i3)] is lane [i_k] of [a]. *)
Theorem shuffle_lanes (a : v4) (i0 i1 i2 i3 : Z) :
  0 <= i0 < 4 -> 0 <= i1 < 4 -> 0 <= i2 < 4 -> 0 <= i3 < 4 ->
  perm_at (i0 + i1*4 + i2*16 + i3*64) = P i0 i1 i2 i3
  /\ v (shuffle a i0 i1 i2 i3)
     = Vec (elt (v a) i0) (elt (v a) i1) (elt (v a) i2) (elt (v a) i3).
Proof.
  intros H0 H1 H2 H3.
  destruct a as [[[a0 a1 a2 a3] [a4 a5 a6 a7] [a8 a9 a10 a11] [a12 a13 a14 a15]]].
  lane_cases H0; lane_cases H1; lane_cases H2; lane_cases H3;
    split; reflexivity.
Qed.

Lemma shuffle_lanes_witness :
  perm_at (2 + 0*4 + 3*16 + 1*64) = P 2 0 3 1
  /\ v (shuffle ex_a 2 0 3 1)
     = Vec (elt (v ex_a) 2) (elt (v ex_a) 0) (elt (v ex_a) 3) (elt (v ex_a) 1).
Proof. apply (shuffle_lanes ex_a 2 0 3 1); lia. Defined.

Lemma pick_range (i0 i1 i2 i3 j : Z) :
  0 <= i0 < 4 -> 0 <= i1 < 4 -> 0 <= i2 < 4 -> 0 <= i3 < 4 ->
  0 <= pick i0 i1 i2 i3 j < 4.
Proof.
  intros. unfold pick.
  destruct j as [ | [ [ | | ] | [ | | ] | ] | ]; assumption.
Qed.

Lemma elt_Vec_pick (x : vec) (i0 i1 i2 i3 j : Z) :
  elt (Vec (elt x i0) (elt x i1) (elt x i2) (elt x i3)) j
  = elt x (pick i0 i1 i2 i3 j).
Proof. destruct j as [ | [ [ | | ] | [ | | ] | ] | ]; reflexivity. Qed.

(** X2: two shuffles in a row are one shuffle with the composed indices. *)
Theorem shuffle_shuffle (a : v4) (i0 i1 i2 i3 j0 j1 j2 j3 : Z) :
  0 <= i0 < 4 -> 0 <= i1 < 4 -> 0 <= i2 < 4 -> 0 <= i3 < 4 ->
  0 <= j0 < 4 -> 0 <= j1 < 4 -> 0 <= j2 < 4 -> 0 <= j3 < 4 ->
  shuffle (shuffle a i0 i1 i2 i3) j0 j1 j2 j3
  = shuffle a (pick i0 i1 i2 i3 j0) (pick i0 i1 i2 i3 j1)
              (pick i0 i1 i2 i3 j2) (pick i0 i1 i2 i3 j3).
Proof.
  intros Hi0 Hi1 Hi2 Hi3 Hj0 Hj1 Hj2 Hj3. apply v4_eq.
  rewrite (proj2 (shuffle_lanes _ j0 j1 j2 j3 Hj0 Hj1 Hj2 Hj3)).
  rewrite (proj2 (shuffle_lanes a i0 i1 i2 i3 Hi0 Hi1 Hi2 Hi3)).
  rewrite !elt_Vec_pick.
  symmetry. apply shuffle_lanes; apply pick_range; assumption.
Qed.

Lemma shuffle_shuffle_witness :
  shuffle (shuffle ex_a 3 2 1 0) 1 1 0 2
  = shuffle ex_a (pick 3 2 1 0 1) (pick 3 2 1 0 1) (pick 3 2 1 0 0) (pick 3 2 1 0 2).
Proof. apply (shuffle_shuffle ex_a 3 2 1 0 1 1 0 2); lia. Defined.

(** ** Aligned vector accesses *)

Lemma vec_st_outside (x : vec) (p : Z) (m : mem) (q : Z) :
  ~ in_range (vec_ea 0 p) 16 q -> vec_st x 0 p m q = m q.
Proof.
  intros H. unfold vec_st. apply store_bytes_outside.
  rewrite length_vec_bytes. exact H.
Qed.

Lemma load_bytes_ext (m m' : mem) (p : Z) (n : nat) :
  (forall q, in_range p (Z.of_nat n) q -> m q = m' q) ->
  load_bytes m p n = load_bytes m' p n.
Proof.
  intros H. unfold load_bytes. apply map_ext_in.
  intros k Hk. apply in_seq in Hk. apply H. unfold in_range. lia.
Qed.

(** Storing back what was loaded from a block writes the bytes the block
    had. *)
Lemma vec_st_ld_inside (p : Z) (m m' : mem) (q : Z) :
  in_range (vec_ea 0 p) 16 q -> vec_st (vec_ld 0 p m) 0 p m' q = m q.
Proof.
  unfold in_range. intros Hq. unfold vec_st, vec_ld.
  set (b := vec_ea 0 p) in *.
  replace q with (b + Z.of_nat (Z.to_nat (q - b))) at 1 by lia.
  rewrite store_bytes_inside by (rewrite length_vec_bytes; lia).
  assert (Hl : length (load_bytes m b 16) = 16%nat) by apply length_load_bytes.
  destruct (load_bytes m b 16) as [ | x0 [ | x1 [ | x2 [ | x3 [ | x4 [ | x5
    [ | x6 [ | x7 [ | x8 [ | x9 [ | x10 [ | x11 [ | x12 [ | x13 [ | x14
    [ | x15 [ | ? ? ] ] ] ] ] ] ] ] ] ] ] ] ] ] ] ] ] eqn:E; try discriminate.
  change (vec_bytes (vec_of_bytes [x0; x1; x2; x3; x4; x5; x6; x7; x8; x9;
                                   x10; x11; x12; x13; x14; x15]))
    with [x0; x1; x2; x3; x4; x5; x6; x7; x8; x9; x10; x11; x12; x13; x14; x15].
  rewrite <- E, nth_load_bytes by lia.
  f_equal. lia.
Qed.

(** Two vector accesses touch the same block or two disjoint blocks. *)
Lemma vec_ea_same_or_apart (p q : Z) :
  vec_ea 0 p = vec_ea 0 q \/ apart 16 (vec_ea 0 p) (vec_ea 0 q).
Proof.
  rewrite !vec_ea_round. unfold apart. lia.
Qed.

Lemma vec_ld_st_same_block (x : vec) (p q : Z) (m : mem) :
  vec_ea 0 p = vec_ea 0 q -> vec_ld 0 p (vec_st x 0 q m) = x.
Proof.
  intros H. unfold vec_ld, vec_st. rewrite H.
  rewrite <- (length_vec_bytes x), load_store_bytes_same.
  apply vec_of_bytes_bytes.
Qed.

Lemma vec_ld_st_other_block (x : vec) (p q : Z) (m : mem) :
  apart 16 (vec_ea 0 p) (vec_ea 0 q) ->
  vec_ld 0 p (vec_st x 0 q m) = vec_ld 0 p m.
Proof.
  unfold apart. intros H. unfold vec_ld, vec_st.
  rewrite load_store_bytes_apart; [ reflexivity | ].
  rewrite length_vec_bytes. lia.
Qed.

(** X3: [store_4x1] (and [stream_4x1]) followed by [load_4x1] on the same
    pointer returns the vector stored, and the store changes no byte
    outside the 16-byte block of an aligned pointer. *)
Theorem store_load_4x1 (a : v4) (p : Z) (m : mem) :
  load_4x1 p (store_4x1 a p m) = a
  /\ load_4x1 p (stream_4x1 a p m) = a
  /\ (aligned16 p ->
      forall q : Z, ~ in_range p 16 q ->
        store_4x1 a p m q = m q /\ stream_4x1 a p m q = m q).
Proof.
  split; [ | split ].
  - unfold load_4x1, store_4x1. rewrite vec_ld_st_same. destruct a; reflexivity.
  - unfold load_4x1, stream_4x1, vec_stl. rewrite vec_ld_st_same.
    destruct a; reflexivity.
  - intros Hp q Hq. unfold store_4x1, stream_4x1, vec_stl.
    rewrite vec_st_outside by (rewrite vec_ea_aligned; assumption). auto.
Qed.

Lemma store_load_4x1_witness :
  load_4x1 32 (store_4x1 ex_a 32 zero_mem) = ex_a
  /\ store_4x1 ex_a 32 zero_mem 48 = zero_mem 48.
Proof.
  destruct (store_load_4x1 ex_a 32 zero_mem) as [H1 [_ H3]].
  split; [ exact H1 | ].
  apply H3; [ reflexivity | unfold in_range; lia ].
Defined.

(** X4: after [copy_4x1(d,s)] the block at [d] holds what the block at [s]
    held, whether or not the two pointers name the same block, and no byte
    outside the block of [d] has changed. *)
Theorem copy_4x1_copies (d s : Z) (m : mem) :
  load_4x1 d (copy_4x1 d s m) = load_4x1 s m
  /\ forall q : Z, ~ in_range (vec_ea 0 d) 16 q -> copy_4x1 d s m q = m q.
Proof.
  split.
  - unfold load_4x1, copy_4x1. rewrite vec_ld_st_same. reflexivity.
  - intros q Hq. unfold copy_4x1. apply vec_st_outside. exact Hq.
Qed.

Lemma copy_4x1_copies_witness :
  copy_4x1 0 16 (store_4x1 ex_a 16 zero_mem) 40 = store_4x1 ex_a 16 zero_mem 40.
Proof.
  apply (proj2 (copy_4x1_copies 0 16 (store_4x1 ex_a 16 zero_mem))).
  unfold in_range. change (vec_ea 0 0) with 0. lia.
Defined.

(** X5: [swap_4x1(a,b)] exchanges the two blocks: afterwards the block at
    [a] holds what the block at [b] held and conversely, for every pair of
    pointers; no other byte changes, and a second swap restores the
    memory. *)
Theorem swap_4x1_exchanges (a b : Z) (m : mem) :
  load_4x1 a (swap_4x1 a b m) = load_4x1 b m
  /\ load_4x1 b (swap_4x1 a b m) = load_4x1 a m
  /\ (forall q : Z,
        ~ in_range (vec_ea 0 a) 16 q -> ~ in_range (vec_ea 0 b) 16 q ->
        swap_4x1 a b m q = m q)
  /\ (forall q : Z, swap_4x1 a b (swap_4x1 a b m) q = m q).
Proof.
  assert (Hab : load_4x1 a (swap_4x1 a b m) = load_4x1 b m).
  { unfold load_4x1, swap_4x1. f_equal.
    destruct (vec_ea_same_or_apart a b) as [E | D].
    - rewrite vec_ld_st_same_block by exact E.
      unfold vec_ld. rewrite E. reflexivity.
    - rewrite vec_ld_st_other_block by exact D. apply vec_ld_st_same. }
  assert (Hba : load_4x1 b (swap_4x1 a b m) = load_4x1 a m).
  { unfold load_4x1, swap_4x1. rewrite vec_ld_st_same. reflexivity. }
  split; [ exact Hab | split; [ exact Hba | split ] ].
  - intros q Ha Hb. unfold swap_4x1. rewrite !vec_st_outside by assumption.
    reflexivity.
  - intros q.
    set (m1 := swap_4x1 a b m).
    assert (E1 : vec_ld 0 a m1 = vec_ld 0 b m) by exact (f_equal v Hab).
    assert (E2 : vec_ld 0 b m1 = vec_ld 0 a m) by exact (f_equal v Hba).
    unfold swap_4x1 at 1. rewrite E1, E2.
    destruct (Z_le_dec (vec_ea 0 b) q) as [L1 | L1];
      [ destruct (Z_lt_dec q (vec_ea 0 b + 16)) as [L2 | L2] | ].
    + apply vec_st_ld_inside. unfold in_range. lia.
    + rewrite vec_st_outside by (unfold in_range; lia).
      destruct (Z_le_dec (vec_ea 0 a) q) as [L3 | L3];
        [ destruct (Z_lt_dec q (vec_ea 0 a + 16)) as [L4 | L4] | ].
      * apply vec_st_ld_inside. unfold in_range. lia.
      * rewrite vec_st_outside by (unfold in_range; lia).
        unfold m1, swap_4x1. rewrite !vec_st_outside by (unfold in_range; lia).
        reflexivity.
      * rewrite vec_st_outside by (unfold in_range; lia).
        unfold m1, swap_4x1. rewrite !vec_st_outside by (unfold in_range; lia).
        reflexivity.
    + rewrite vec_st_outside by (unfold in_range; lia).
      destruct (Z_le_dec (vec_ea 0 a) q) as [L3 | L3];
        [ destruct (Z_lt_dec q (vec_ea 0 a + 16)) as [L4 | L4] | ].
      * apply vec_st_ld_inside. unfold in_range. lia.
      * rewrite vec_st_outside by (unfold in_range; lia).
        unfold m1, swap_4x1. rewrite !vec_st_outside by (unfold in_range; lia).
        reflexivity.
      * rewrite vec_st_outside by (unfold in_range; lia).
        unfold m1, swap_4x1. rewrite !vec_st_outside by (unfold in_range; lia).
        reflexivity.
Qed.

Lemma swap_4x1_exchanges_witness :
  let m := store_4x1 ex_a 0 (store_4x1 ex_b 16 zero_mem) in
  load_4x1 0 (swap_4x1 0 16 m) = ex_b
  /\ swap_4x1 0 16 m 40 = m 40.
Proof.
  intros m.
  destruct (swap_4x1_exchanges 0 16 m) as [H1 [_ [H3 _]]].
  split.
  - rewrite H1. reflexivity.
  - apply H3; unfold in_range;
      [ change (vec_ea 0 0) with 0 | change (vec_ea 0 16) with 16 ]; lia.
Defined.

(** ** Records of four fields *)

(** For an aligned record the vector loaded from it is its four fields. *)
Lemma vec_ld_fields (p : Z) (m : mem) :
  aligned16 p ->
  vec_ld 0 p m
  = Vec (load_float p 0 m) (load_float p 1 m) (load_float p 2 m) (load_float p 3 m).
Proof.
  intros Hp. unfold vec_ld. rewrite vec_ea_aligned by exact Hp.
  unfold load_float, load_bytes, vec_of_bytes, lane_of_bytes.
  cbn [seq map nth skipn].
  f_equal; f_equal; f_equal; lia.
Qed.



Lemma aligned16_apart (p q : Z) :
  aligned16 p -> aligned16 q -> p <> q -> apart 16 p q.
Proof.
  unfold aligned16, apart. intros Hp Hq Hpq.
  Z.div_mod_to_equations. lia.
Qed.

(** Reads a field back through the scalar stores that follow its own. *)
Ltac read_field :=
  rewrite ?load_store_float_apart by (unfold apart in *; lia);
  first [ rewrite load_store_float_same; reflexivity | reflexivity ].

(** X7: for four distinct aligned records, [store_4x4_tr] leaves in record
    [i] the lanes [i] of [a], [b], [c] and [d] as its fields 0 to 3, and
    changes no byte outside the four records. *)
Theorem store_4x4_tr_rows (a b c d : v4) (pa pb pc pd : Z) (m : mem) :
  aligned16 pa -> aligned16 pb -> aligned16 pc -> aligned16 pd ->
  pa <> pb -> pa <> pc -> pa <> pd -> pb <> pc -> pb <> pd -> pc <> pd ->
  let m' := store_4x4_tr a b c d pa pb pc pd m in
  let row i := V4 (Vec (elt (v a) i) (elt (v b) i) (elt (v c) i) (elt (v d) i)) in
  load_4x1 pa m' = row 0 /\ load_4x1 pb m' = row 1
  /\ load_4x1 pc m' = row 2 /\ load_4x1 pd m' = row 3
  /\ forall q : Z,
       ~ in_range pa 16 q -> ~ in_range pb 16 q ->
       ~ in_range pc 16 q -> ~ in_range pd 16 q -> m' q = m q.
Proof.
  intros Ha Hb Hc Hd Hab Hac Had Hbc Hbd Hcd m' row.
  unfold m', store_4x4_tr, load_4x1, row.
  repeat split.
  - rewrite (vec_ld_st_apart _ pa pd), (vec_ld_st_apart _ pa pc),
      (vec_ld_st_apart _ pa pb), (vec_ld_st_same _ pa) by auto.
    reflexivity.
  - rewrite (vec_ld_st_apart _ pb pd), (vec_ld_st_apart _ pb pc),
      (vec_ld_st_same _ pb) by auto.
    reflexivity.
  - rewrite (vec_ld_st_apart _ pc pd), (vec_ld_st_same _ pc) by auto.
    reflexivity.
  - rewrite (vec_ld_st_same _ pd). reflexivity.
  - intros q Qa Qb Qc Qd.
    rewrite !vec_st_outside by (rewrite vec_ea_aligned; assumption).
    reflexivity.
Qed.

Lemma store_4x4_tr_rows_witness :
  load_4x1 16 (store_4x4_tr ex_a ex_b ex_c ex_d 0 16 32 48 zero_mem)
  = v4int_of_ints 1 5 9 13.
Proof.
  assert (A : forall k, k = 0 \/ k = 16 \/ k = 32 \/ k = 48 -> aligned16 k).
  { intros k [-> | [-> | [-> | ->]]]; reflexivity. }
  apply (store_4x4_tr_rows ex_a ex_b ex_c ex_d 0 16 32 48 zero_mem);
    solve [ apply A; auto | discriminate ].
Defined.

Lemma v4_lanes (x : v4) (l0 l1 l2 l3 : lane) :
  l0 = elt (v x) 0 -> l1 = elt (v x) 1 -> l2 = elt (v x) 2 ->
  l3 = elt (v x) 3 -> V4 (Vec l0 l1 l2 l3) = x.
Proof. intros -> -> -> ->. destruct x as [[]]. reflexivity. Qed.

Lemma load_4x3_tr_aligned (pa pb pc pd : Z) (m : mem) :
  aligned16 pa -> aligned16 pb -> aligned16 pc -> aligned16 pd ->
  load_4x3_tr pa pb pc pd m
  = (V4 (Vec (load_float pa 0 m) (load_float pb 0 m)
             (load_float pc 0 m) (load_float pd 0 m)),
     V4 (Vec (load_float pa 1 m) (load_float pb 1 m)
             (load_float pc 1 m) (load_float pd 1 m)),
     V4 (Vec (load_float pa 2 m) (load_float pb 2 m)
             (load_float pc 2 m) (load_float pd 2 m))).
Proof.
  intros Ha Hb Hc Hd. unfold load_4x3_tr.
  rewrite (vec_ld_fields pa), (vec_ld_fields pb), (vec_ld_fields pc),
    (vec_ld_fields pd) by assumption.
  reflexivity.
Qed.



(** With [c] in the record at [pa], the stores of lane 0 of [a] and of [b]
    change [c] before it is read: field 2 of the first two records
    receives lane 0 of [a] and lane 0 of [b]. *)
Example store_4x3_tr_rereads_c :
  let m := store_4x1 ex_c 0 (store_4x1 ex_a 64 (store_4x1 ex_b 80 zero_mem)) in
  let m' := store_4x3_tr 64 80 0 0 16 32 48 m in
  v4_at 0 m = ex_c
  /\ load_float 0 2 m' = elt (v ex_a) 0
  /\ load_float 16 2 m' = elt (v ex_b) 0
  /\ load_float 32 2 m' = elt (v ex_c) 2.
Proof. repeat split; reflexivity. Qed.

Lemma v4_eta (a : v4) :
  a = V4 (Vec (elt (v a) 0) (elt (v a) 1) (elt (v a) 2) (elt (v a) 3)).
Proof. destruct a as [[]]. reflexivity. Qed.



(** ** Integer lanes *)

Lemma lane_signed_of_Z_swrap (z : Z) : lane_signed (lane_of_Z z) = swrap z.
Proof.
  unfold lane_signed, swrap. rewrite lane_unsigned_of_Z.
  change (2 ^ 32) with 4294967296. change (2 ^ 31) with 2147483648.
  rewrite <- (Z.add_mod_idemp_l z) by lia.
  pose proof (Z.mod_pos_bound z 4294967296 ltac:(lia)) as Hz.
  set (w := z mod 4294967296) in *.
  destruct (w <? 2147483648) eqn:C;
    [ apply Z.ltb_lt in C | apply Z.ltb_ge in C ].
  - rewrite (Z.mod_small (w + 2147483648)) by lia. lia.
  - replace (w + 2147483648) with (w - 2147483648 + 1 * 4294967296) by lia.
    rewrite Z.mod_add by lia. rewrite Z.mod_small by lia. lia.
Qed.

Lemma swrap_small (z : Z) : - 2 ^ 31 <= z < 2 ^ 31 -> swrap z = z.
Proof.
  intros Hz. unfold swrap. rewrite Z.mod_small by lia. lia.
Qed.

Lemma swrap_range (z : Z) : - 2 ^ 31 <= swrap z < 2 ^ 31.
Proof.
  unfold swrap. pose proof (Z.mod_pos_bound (z + 2 ^ 31) (2 ^ 32) ltac:(lia)). lia.
Qed.

(** The low 32 bits decide the element. *)
Lemma lane_of_Z_bits (z w : Z) :
  (forall i, 0 <= i < 32 -> Z.testbit z i = Z.testbit w i) ->
  lane_of_Z z = lane_of_Z w.
Proof.
  intros H. apply lane_of_Z_eq. apply Z.bits_inj'. intros i Hi.
  destruct (Z_lt_dec i 32) as [L | L].
  - rewrite !Z.mod_pow2_bits_low by lia. apply H. lia.
  - rewrite !Z.mod_pow2_bits_high by lia. reflexivity.
Qed.

Lemma lane_unsigned_bits_high (x : lane) (i : Z) :
  32 <= i -> Z.testbit (lane_unsigned x) i = false.
Proof.
  intros Hi. pose proof (lane_unsigned_range x) as Hx.
  rewrite <- (Z.mod_small (lane_unsigned x) (2 ^ 32)) by lia.
  apply Z.mod_pow2_bits_high. lia.
Qed.

Lemma lane_unsigned_of_Z_bits (z : Z) (i : Z) :
  0 <= i < 32 -> Z.testbit (lane_unsigned (lane_of_Z z)) i = Z.testbit z i.
Proof.
  intros Hi. rewrite lane_unsigned_of_Z. apply Z.mod_pow2_bits_low. lia.
Qed.

(** Two elements with the same 32 bits are equal. *)
Lemma lane_bits_inj (x y : lane) :
  (forall i, 0 <= i < 32 ->
     Z.testbit (lane_unsigned x) i = Z.testbit (lane_unsigned y) i) ->
  x = y.
Proof.
  intros H. rewrite <- (lane_of_Z_unsigned x), <- (lane_of_Z_unsigned y).
  apply lane_of_Z_bits. exact H.
Qed.

(** Proves an identity between bitwise operations on elements bit by
    bit. *)
Ltac lane_bitwise :=
  apply lane_bits_inj; intros ?i ?Hi;
  unfold lane_bitop, lane_sel;
  repeat (rewrite lane_unsigned_of_Z_bits by assumption);
  rewrite ?Z.lor_spec, ?Z.land_spec, ?Z.lxor_spec, ?Z.ldiff_spec;
  repeat (rewrite lane_unsigned_of_Z_bits by assumption);
  rewrite ?Z.lor_spec, ?Z.land_spec, ?Z.lxor_spec, ?Z.ldiff_spec;
  repeat (rewrite lane_unsigned_of_Z_bits by assumption);
  rewrite ?Z.lor_spec, ?Z.land_spec, ?Z.lxor_spec, ?Z.ldiff_spec.

Lemma lane_ones_bits (i : Z) :
  0 <= i < 32 -> Z.testbit (lane_unsigned lane_ones) i = true.
Proof.
  intros Hi. rewrite lane_unsigned_ones. apply Z.ones_spec_low. lia.
Qed.

Lemma vec_eq (a b : vec) :
  e0 a = e0 b -> e1 a = e1 b -> e2 a = e2 b -> e3 a = e3 b -> a = b.
Proof. destruct a, b. simpl. congruence. Qed.

(** Reduces an identity between vectors built lane by lane to one lane. *)
Ltac by_lanes :=
  apply v4_eq; cbn [v];
  unfold vec_and, vec_or, vec_xor, vec_andc, vec_sel, vec_add_i, vec_sub_i;
  rewrite ?true_lanes; unfold _false, _ione, _sign, vec_of_ints;
  apply vec_eq; cbn [vmap vmap2 vmap3 e0 e1 e2 e3].

(** X10: the bitwise operators of [v4int] obey the laws of Boolean
    algebra: [~] is an involution, de Morgan's laws hold, [^] is undone by
    itself and is the difference of [|] and [&]. *)
Theorem v4int_bitwise_laws (a b : v4int) :
  v4int_not (v4int_not a) = a
  /\ v4int_not (v4int_and a b) = v4int_or (v4int_not a) (v4int_not b)
  /\ v4int_not (v4int_or a b) = v4int_and (v4int_not a) (v4int_not b)
  /\ v4int_xor (v4int_xor a b) b = a
  /\ v4int_xor a b = v4int_and (v4int_or a b) (v4int_not (v4int_and a b)).
Proof.
  unfold v4int_not, v4int_and, v4int_or, v4int_xor.
  repeat split; by_lanes; lane_bitwise;
    rewrite ?lane_ones_bits by assumption;
    repeat match goal with
    | |- context [Z.testbit ?u ?i] => destruct (Z.testbit u i)
    end; reflexivity.
Qed.

Lemma lane_add_unsigned (x y : lane) :
  lane_bitop Z.add x y = lane_of_Z (lane_signed x + lane_signed y).
Proof.
  unfold lane_bitop. apply lane_of_Z_eq.
  rewrite <- (lane_signed_mod x), <- (lane_signed_mod y).
  rewrite <- Z.add_mod by lia. reflexivity.
Qed.

Lemma lane_sub_unsigned (x y : lane) :
  lane_bitop Z.sub x y = lane_of_Z (lane_signed x - lane_signed y).
Proof.
  unfold lane_bitop. apply lane_of_Z_eq.
  rewrite <- (lane_signed_mod x), <- (lane_signed_mod y).
  rewrite <- Zminus_mod. reflexivity.
Qed.

Lemma lane_add_sub (x y : lane) :
  lane_bitop Z.sub (lane_bitop Z.add x y) y = x.
Proof.
  unfold lane_bitop. rewrite lane_unsigned_of_Z.
  rewrite <- (lane_of_Z_unsigned x) at 2. apply lane_of_Z_eq.
  rewrite Zminus_mod_idemp_l. f_equal. lia.
Qed.

Lemma lane_sub_add (x y : lane) :
  lane_bitop Z.add (lane_bitop Z.sub x y) y = x.
Proof.
  unfold lane_bitop. rewrite lane_unsigned_of_Z.
  rewrite <- (lane_of_Z_unsigned x) at 2. apply lane_of_Z_eq.
  rewrite Z.add_mod_idemp_l by lia. f_equal. lia.
Qed.

Lemma lane_add_comm (x y : lane) : lane_bitop Z.add x y = lane_bitop Z.add y x.
Proof. unfold lane_bitop. rewrite Z.add_comm. reflexivity. Qed.

Lemma lane_add_assoc (x y z : lane) :
  lane_bitop Z.add (lane_bitop Z.add x y) z
  = lane_bitop Z.add x (lane_bitop Z.add y z).
Proof.
  unfold lane_bitop. rewrite !lane_unsigned_of_Z. apply lane_of_Z_eq.
  rewrite Z.add_mod_idemp_l, Z.add_mod_idemp_r by lia. f_equal. lia.
Qed.

(** X11: [+] and [-] of [v4int] are the arithmetic of integers modulo
    [2^32]: lane [n] of [a + b] is the sum of the lanes wrapped to an
    [int], [+] is commutative and associative, and [-] undoes [+]. *)
Theorem v4int_add_sub (a b c : v4int) (n : Z) :
  v4int_get (v4int_add a b) n = swrap (v4int_get a n + v4int_get b n)
  /\ v4int_get (v4int_sub a b) n = swrap (v4int_get a n - v4int_get b n)
  /\ v4int_add a b = v4int_add b a
  /\ v4int_add (v4int_add a b) c = v4int_add a (v4int_add b c)
  /\ v4int_sub (v4int_add a b) b = a
  /\ v4int_add (v4int_sub a b) b = a.
Proof.
  unfold v4int_get, v4int_add, v4int_sub.
  split; [ | split; [ | split; [ | split; [ | split ] ] ] ].
  - cbn [v]. unfold vec_add_i. rewrite elt_vmap2, lane_add_unsigned.
    apply lane_signed_of_Z_swrap.
  - cbn [v]. unfold vec_sub_i. rewrite elt_vmap2, lane_sub_unsigned.
    apply lane_signed_of_Z_swrap.
  - by_lanes; apply lane_add_comm.
  - by_lanes; apply lane_add_assoc.
  - by_lanes; apply lane_add_sub.
  - by_lanes; apply lane_sub_add.
Qed.

Lemma swrap_mod (z : Z) : swrap z mod 2 ^ 32 = z mod 2 ^ 32.
Proof.
  unfold swrap. rewrite Zminus_mod_idemp_l. f_equal. lia.
Qed.

Lemma lane_of_Z_swrap (z : Z) : lane_of_Z (swrap z) = lane_of_Z z.
Proof. apply lane_of_Z_eq, swrap_mod. Qed.

Lemma lane_of_Z_add_swrap_l (a b : Z) : lane_of_Z (swrap a + b) = lane_of_Z (a + b).
Proof.
  apply lane_of_Z_eq.
  rewrite <- Z.add_mod_idemp_l, swrap_mod, Z.add_mod_idemp_l by lia.
  reflexivity.
Qed.

Lemma lane_of_Z_add_swrap_r (a b : Z) : lane_of_Z (a + swrap b) = lane_of_Z (a + b).
Proof. rewrite Z.add_comm, lane_of_Z_add_swrap_l, Z.add_comm. reflexivity. Qed.

Lemma lane_of_Z_opp_swrap (a : Z) : lane_of_Z (- swrap a) = lane_of_Z (- a).
Proof.
  apply lane_of_Z_eq.
  rewrite <- (Z.sub_0_l (swrap a)), <- Zminus_mod_idemp_r, swrap_mod,
    Zminus_mod_idemp_r.
  reflexivity.
Qed.

Lemma lane_of_Z_sub_swrap_r (a b : Z) : lane_of_Z (a - swrap b) = lane_of_Z (a - b).
Proof.
  apply lane_of_Z_eq.
  rewrite <- Zminus_mod_idemp_r, swrap_mod, Zminus_mod_idemp_r. reflexivity.
Qed.

Lemma lane_of_Z_sub_swrap_l (a b : Z) : lane_of_Z (swrap a - b) = lane_of_Z (a - b).
Proof.
  apply lane_of_Z_eq.
  rewrite <- Zminus_mod_idemp_l, swrap_mod, Zminus_mod_idemp_l. reflexivity.
Qed.

Lemma lane_not_unsigned (x : lane) :
  lane_bitop Z.lxor lane_ones x = lane_of_Z (- lane_signed x - 1).
Proof.
  unfold lane_bitop.
  replace (- lane_signed x - 1) with (Z.lnot (lane_signed x))
    by (unfold Z.lnot; lia).
  rewrite <- (lane_of_Z_mod (Z.lnot _)).
  apply lane_of_Z_bits. intros i Hi.
  rewrite Z.lxor_spec, lane_ones_bits by assumption.
  rewrite Z.mod_pow2_bits_low by lia.
  rewrite Z.lnot_spec by lia.
  rewrite <- (lane_signed_mod x), Z.mod_pow2_bits_low by lia.
  reflexivity.
Qed.

(** X12: unary [-] of [v4int] is subtraction from zero, which is the two's
    complement [~a + 1]; [a - b] is [a + (-b)], and the only lanes equal
    to their own negation are [0] and [-2^31]. *)
Theorem v4int_neg_twos_complement (a b : v4int) (n : Z) :
  v4int_get (v4int_neg a) n = swrap (- v4int_get a n)
  /\ v4int_neg a = v4int_add (v4int_not a) (v4int_of_int 1)
  /\ v4int_sub a b = v4int_add a (v4int_neg b)
  /\ v4int_neg (v4int_neg a) = a
  /\ (v4int_get (v4int_neg a) n = v4int_get a n
      <-> v4int_get a n = 0 \/ v4int_get a n = - 2 ^ 31).
Proof.
  assert (N : forall x, lane_bitop Z.sub lane_zero x = lane_of_Z (- lane_signed x)).
  { intros x. rewrite lane_sub_unsigned. reflexivity. }
  assert (G : v4int_get (v4int_neg a) n = swrap (- v4int_get a n)).
  { unfold v4int_get, v4int_neg. cbn [v]. unfold vec_sub_i.
    rewrite elt_vmap2.
    replace (elt _false n) with lane_zero
      by (destruct n as [ | [ [ | | ] | [ | | ] | ] | ]; reflexivity).
    rewrite N. apply lane_signed_of_Z_swrap. }
  split; [ exact G | split; [ | split; [ | split ] ] ].
  - unfold v4int_neg, v4int_add, v4int_not, v4int_of_int.
    by_lanes; change (lane_of_Z 0) with lane_zero;
      rewrite N, lane_not_unsigned, lane_add_unsigned, lane_signed_of_Z_swrap;
      change (lane_signed (lane_of_Z 1)) with 1;
      rewrite lane_of_Z_add_swrap_l; f_equal; lia.
  - unfold v4int_neg, v4int_add, v4int_sub.
    by_lanes; change (lane_of_Z 0) with lane_zero;
      rewrite N, lane_sub_unsigned, lane_add_unsigned, lane_signed_of_Z_swrap;
      rewrite lane_of_Z_add_swrap_r; f_equal; lia.
  - unfold v4int_neg.
    by_lanes; change (lane_of_Z 0) with lane_zero;
      rewrite !N, lane_signed_of_Z_swrap, lane_of_Z_opp_swrap, Z.opp_involutive;
      apply lane_of_Z_signed.
  - rewrite G. unfold v4int_get.
    pose proof (lane_signed_range (elt (v a) n)) as R.
    set (x := lane_signed (elt (v a) n)) in *.
    unfold swrap. change (2 ^ 32) with 4294967296 in *.
    change (2 ^ 31) with 2147483648 in *.
    split.
    + intros H.
      pose proof (Z.mod_pos_bound (- x + 2147483648) 4294967296 ltac:(lia)) as B.
      pose proof (Z.div_mod (- x + 2147483648) 4294967296 ltac:(lia)) as D.
      lia.
    + intros [-> | ->]; reflexivity.
Qed.

Lemma v4int_neg_twos_complement_witness :
  v4int_get (v4int_neg (v4int_of_int (-2147483648))) 0
  = v4int_get (v4int_of_int (-2147483648)) 0.
Proof.
  apply (v4int_neg_twos_complement (v4int_of_int (-2147483648))
           (v4int_of_int 1) 0).
  right. reflexivity.
Defined.

(** X13: prefix [++] and [--] leave the changed vector in [a] and return
    it, postfix [++] and [--] leave the same vector in [a] and return the
    old value; lane [n] becomes the next or the previous [int], [INT_MAX]
    wrapping to [INT_MIN]; [--] undoes [++]. *)
Theorem v4int_inc_dec (a : v4int) (n : Z) :
  snd (v4int_pre_inc a) = fst (v4int_pre_inc a)
  /\ snd (v4int_pre_dec a) = fst (v4int_pre_dec a)
  /\ fst (v4int_post_inc a) = fst (v4int_pre_inc a)
  /\ snd (v4int_post_inc a) = a
  /\ snd (v4int_post_dec a) = a
  /\ fst (v4int_post_dec a) = fst (v4int_pre_dec a)
  /\ v4int_get (fst (v4int_pre_inc a)) n = swrap (v4int_get a n + 1)
  /\ v4int_get (fst (v4int_pre_dec a)) n = swrap (v4int_get a n - 1)
  /\ fst (v4int_pre_dec (fst (v4int_pre_inc a))) = a
  /\ fst (v4int_pre_inc (fst (v4int_pre_dec a))) = a.
Proof.
  assert (E1 : forall i, elt _ione i = lane_of_Z 1)
    by (intros i; destruct i as [ | [ [ | | ] | [ | | ] | ] | ]; reflexivity).
  unfold v4int_pre_inc, v4int_post_inc, v4int_pre_dec, v4int_post_dec,
    v4int_get. cbn [fst snd].
  repeat split.
  - destruct a; reflexivity.
  - destruct a; reflexivity.
  - cbn [v]. unfold vec_add_i. rewrite elt_vmap2, lane_add_unsigned, E1.
    apply lane_signed_of_Z_swrap.
  - cbn [v]. unfold vec_sub_i. rewrite elt_vmap2, lane_sub_unsigned, E1.
    apply lane_signed_of_Z_swrap.
  - by_lanes; apply lane_add_sub.
  - by_lanes; apply lane_sub_add.
Qed.

Lemma elt_vec_of_ints (i0 i1 i2 i3 n : Z) :
  elt (vec_of_ints i0 i1 i2 i3) n = lane_of_Z (pick i0 i1 i2 i3 n).
Proof. destruct n as [ | [ [ | | ] | [ | | ] | ] | ]; reflexivity. Qed.

(** X14: a vector built from four [int]s gives them back lane by lane, a
    vector is rebuilt from the [int]s read from its lanes, and the
    constructor from one [int] fills every lane with it. *)
Theorem v4int_construct_read (i0 i1 i2 i3 : Z) (a : v4int) (n : Z) :
  int_ok i0 = true -> int_ok i1 = true -> int_ok i2 = true -> int_ok i3 = true ->
  0 <= n < 4 ->
  v4int_get (v4int_of_ints i0 i1 i2 i3) n = pick i0 i1 i2 i3 n
  /\ v4int_get (v4int_of_int i0) n = i0
  /\ v4int_of_ints (v4int_get a 0) (v4int_get a 1) (v4int_get a 2) (v4int_get a 3)
     = a
  /\ v4int_of_int i0 = splat (v4int_of_ints i0 i1 i2 i3) 0.
Proof.
  unfold int_ok. rewrite !andb_true_iff, !Z.leb_le, !Z.ltb_lt.
  intros H0 H1 H2 H3 _.
  unfold v4int_get, v4int_of_ints, v4int_of_int. cbn [v].
  split; [ | split; [ | split ] ].
  - rewrite elt_vec_of_ints. apply lane_signed_of_Z.
    unfold pick. destruct n as [ | [ [ | | ] | [ | | ] | ] | ]; assumption.
  - rewrite elt_vec_of_ints.
    replace (pick i0 i0 i0 i0 n) with i0
      by (destruct n as [ | [ [ | | ] | [ | | ] | ] | ]; reflexivity).
    apply lane_signed_of_Z. assumption.
  - unfold vec_of_ints. rewrite !lane_of_Z_signed. destruct a as [[]]. reflexivity.
  - reflexivity.
Qed.

Lemma v4int_construct_read_witness :
  v4int_get (v4int_of_ints (-7) 2147483647 0 (-2147483648)) 3 = -2147483648
  /\ v4int_get (v4int_of_int (-7)) 2 = -7.
Proof.
  destruct (v4int_construct_read (-7) 2147483647 0 (-2147483648) ex_a 3)
    as [H1 _]; try reflexivity; try lia.
  destruct (v4int_construct_read (-7) 2147483647 0 (-2147483648) ex_a 2)
    as [_ [H2 _]]; try reflexivity; try lia.
  split; [ exact H1 | exact H2 ].
Defined.

(** ** Comparisons and logical operators *)

Lemma lane_signed_zero_iff (x : lane) : lane_signed x = 0 <-> x = lane_zero.
Proof.
  split.
  - intros H. apply lane_signed_inj. rewrite H. reflexivity.
  - intros ->. reflexivity.
Qed.

Lemma lane_true_signed (x : lane) : lane_true x = negb (lane_signed x =? 0).
Proof.
  unfold lane_true. f_equal.
  destruct (lane_signed x =? 0) eqn:E.
  - apply Z.eqb_eq, lane_signed_zero_iff in E. subst. reflexivity.
  - apply Z.eqb_neq in E.
    destruct (lane_eqb x lane_zero) eqn:F; [ | reflexivity ].
    apply lane_eqb_eq in F. apply lane_signed_zero_iff in F. contradiction.
Qed.

Lemma elt_false (i : Z) : elt _false i = lane_zero.
Proof. destruct i as [ | [ [ | | ] | [ | | ] | ] | ]; reflexivity. Qed.

Lemma elt_true (i : Z) : elt _true i = lane_ones.
Proof. destruct i as [ | [ [ | | ] | [ | | ] | ] | ]; reflexivity. Qed.

(** X15: the six comparisons of [v4int] compare the lanes as signed
    integers: lane [i] of the result is all ones exactly when the relation
    holds between lane [i] of [a] and lane [i] of [b]. *)
Theorem v4int_comparisons (a b : v4int) (i : Z) :
  let x := v4int_get a i in
  let y := v4int_get b i in
  elt (v (v4int_lt a b)) i = mask_of_bool (x <? y)
  /\ elt (v (v4int_gt a b)) i = mask_of_bool (y <? x)
  /\ elt (v (v4int_eq a b)) i = mask_of_bool (x =? y)
  /\ elt (v (v4int_ne a b)) i = mask_of_bool (negb (x =? y))
  /\ elt (v (v4int_le a b)) i = mask_of_bool (x <=? y)
  /\ elt (v (v4int_ge a b)) i = mask_of_bool (y <=? x).
Proof.
  intros x y.
  unfold v4int_lt, v4int_gt, v4int_eq, v4int_ne, v4int_le, v4int_ge.
  cbn [v].
  unfold vec_xor, vec_cmplt_i, vec_cmpgt_i, vec_cmpeq_i.
  rewrite !elt_vmap2, !elt_true, !lane_xor_ones_mask.
  fold (v4int_get a i) (v4int_get b i). fold x y.
  repeat split.
  - rewrite Z.gtb_ltb. reflexivity.
  - rewrite Z.gtb_ltb, Z.leb_antisym. reflexivity.
  - rewrite Z.leb_antisym. reflexivity.
Qed.

Lemma elt_v4int_ne_zero (a : v4int) (i : Z) :
  elt (v (v4int_ne a (V4 _false))) i = mask_of_bool (lane_true (elt (v a) i)).
Proof.
  unfold v4int_ne. cbn [v]. unfold vec_xor, vec_cmpeq_i.
  rewrite !elt_vmap2, elt_true, elt_false, lane_xor_ones_mask, lane_true_signed.
  reflexivity.
Qed.

Lemma vec_ext (x y : vec) :
  (forall i, elt x i = elt y i) -> x = y.
Proof.
  intros H. destruct x as [x0 x1 x2 x3], y as [y0 y1 y2 y3].
  pose proof (H 0) as H0. pose proof (H 1) as H1.
  pose proof (H 2) as H2. pose proof (H 3) as H3.
  cbn in H0, H1, H2, H3. congruence.
Qed.

Lemma elt_v4int_lnot (c : v4int) (j : Z) :
  elt (v (v4int_lnot c)) j = mask_of_bool (negb (lane_true (elt (v c) j))).
Proof.
  unfold v4int_lnot. cbn [v]. unfold vec_cmpeq_i.
  rewrite elt_vmap2, elt_false, lane_true_signed, negb_involutive.
  change (lane_signed lane_zero) with 0. rewrite Z.eqb_sym. reflexivity.
Qed.

Lemma elt_v4int_land (c d : v4int) (j : Z) :
  elt (v (v4int_land c d)) j
  = mask_of_bool (lane_true (elt (v c) j) && lane_true (elt (v d) j)).
Proof.
  unfold v4int_land. cbn [v]. unfold vec_xor, vec_or, vec_cmpeq_i.
  rewrite !elt_vmap2, !elt_true, !elt_false, lane_or_mask, lane_xor_ones_mask.
  rewrite !lane_true_signed, negb_orb.
  change (lane_signed lane_zero) with 0. reflexivity.
Qed.

Lemma elt_v4int_lor (c d : v4int) (j : Z) :
  elt (v (v4int_lor c d)) j
  = mask_of_bool (lane_true (elt (v c) j) || lane_true (elt (v d) j)).
Proof.
  unfold v4int_lor. cbn [v]. unfold vec_xor, vec_and, vec_cmpeq_i.
  rewrite !elt_vmap2, !elt_true, !elt_false, lane_and_mask, lane_xor_ones_mask.
  rewrite !lane_true_signed, negb_andb.
  change (lane_signed lane_zero) with 0. reflexivity.
Qed.

Lemma lane_true_mask (c : bool) : lane_true (mask_of_bool c) = c.
Proof. destruct c; reflexivity. Qed.

(** X16: [!], [&&] and [||] of [v4int] follow C: a lane is true when it is
    not zero, and the result lane is all ones or all zero accordingly; de
    Morgan's law holds, and [!!a] is [a != 0]. *)
Theorem v4int_logical (a b : v4int) (i : Z) :
  let x := lane_true (elt (v a) i) in
  let y := lane_true (elt (v b) i) in
  elt (v (v4int_lnot a)) i = mask_of_bool (negb x)
  /\ elt (v (v4int_land a b)) i = mask_of_bool (x && y)
  /\ elt (v (v4int_lor a b)) i = mask_of_bool (x || y)
  /\ v4int_lnot (v4int_land a b) = v4int_lor (v4int_lnot a) (v4int_lnot b)
  /\ v4int_lnot (v4int_lnot a) = v4int_ne a (V4 _false).
Proof.
  intros x y.
  split; [ apply elt_v4int_lnot | ].
  split; [ apply elt_v4int_land | ].
  split; [ apply elt_v4int_lor | ].
  split; apply v4_eq, vec_ext; intros j.
  - rewrite elt_v4int_lnot, elt_v4int_land, elt_v4int_lor, !elt_v4int_lnot.
    rewrite !lane_true_mask, negb_andb. reflexivity.
  - rewrite !elt_v4int_lnot, lane_true_mask, negb_involutive, elt_v4int_ne_zero.
    reflexivity.
Qed.

(** ** Shifts *)

Lemma land_31 (x : lane) : Z.land (lane_unsigned x) 31 = lane_signed x mod 32.
Proof.
  change 31 with (Z.ones 5). rewrite Z.land_ones by lia.
  rewrite <- (lane_signed_mod x).
  change (2 ^ 32) with (2 ^ 5 * 2 ^ 27).
  rewrite Z.rem_mul_r by lia.
  rewrite Z.mul_comm, Z.mod_add by lia.
  rewrite Z.mod_mod by lia. reflexivity.
Qed.

(** X17: [a << b] multiplies lane [i] of [a] by two to the power of the low
    five bits of lane [i] of [b], wrapping to 32 bits; [a >> b] divides the
    lane read as an unsigned number, so zeros are shifted in and a shift by
    one bit or more never gives a negative lane. *)
Theorem v4int_shifts (a b : v4int) (i : Z) :
  let s := v4int_get b i mod 32 in
  v4int_get (v4int_shl a b) i = swrap (v4int_get a i * 2 ^ s)
  /\ lane_unsigned (elt (v (v4int_shr a b)) i)
     = lane_unsigned (elt (v a) i) / 2 ^ s
  /\ (0 < s -> 0 <= v4int_get (v4int_shr a b) i < 2 ^ (32 - s)).
Proof.
  intros s. unfold v4int_get in *.
  assert (Hs : 0 <= s < 32) by (apply Z.mod_pos_bound; lia).
  unfold v4int_shl, v4int_shr. cbn [v]. unfold vec_sl, vec_sr.
  rewrite !elt_vmap2. unfold lane_sl, lane_sr. rewrite land_31. fold s.
  set (x := elt (v a) i).
  pose proof (lane_unsigned_range x) as Hx.
  assert (Hp : 0 < 2 ^ s) by (apply Z.pow_pos_nonneg; lia).
  assert (Hq : lane_unsigned (lane_of_Z (Z.shiftr (lane_unsigned x) s))
               = lane_unsigned x / 2 ^ s).
  { rewrite lane_unsigned_of_Z, Z.shiftr_div_pow2 by lia.
    apply Z.mod_small. split.
    - apply Z.div_pos; lia.
    - apply Z.le_lt_trans with (lane_unsigned x); [ | lia ].
      apply Z.div_le_upper_bound; nia. }
  split; [ | split ].
  - rewrite lane_signed_of_Z_swrap, Z.shiftl_mul_pow2 by lia.
    rewrite <- (lane_signed_of_Z_swrap (lane_signed x * 2 ^ s)).
    rewrite <- lane_signed_of_Z_swrap. f_equal. apply lane_of_Z_eq.
    rewrite <- (lane_signed_mod x).
    rewrite Z.mul_mod_idemp_l by lia. reflexivity.
  - exact Hq.
  - intros H0.
    assert (Hlt : lane_unsigned x / 2 ^ s < 2 ^ (32 - s)).
    { apply Z.div_lt_upper_bound; [ lia | ].
      rewrite <- Z.pow_add_r by lia.
      replace (s + (32 - s)) with 32 by lia. lia. }
    assert (Hle : 2 ^ (32 - s) <= 2 ^ 31) by (apply Z.pow_le_mono_r; lia).
    unfold lane_signed. rewrite Hq.
    assert (0 <= lane_unsigned x / 2 ^ s) by (apply Z.div_pos; lia).
    destruct (lane_unsigned x / 2 ^ s <? 2 ^ 31) eqn:E.
    + lia.
    + apply Z.ltb_ge in E. lia.
Qed.

Lemma v4int_shifts_witness :
  0 <= v4int_get (v4int_shr (v4int_of_int (-1)) (v4int_of_int 33)) 2 < 2 ^ 31.
Proof.
  apply (v4int_shifts (v4int_of_int (-1)) (v4int_of_int 33) 2).
  reflexivity.
Defined.

(** ** Products, quotients and remainders *)

Lemma elt_cases (x : vec) (i : Z) :
  elt x i = elt x 0 \/ elt x i = elt x 1 \/ elt x i = elt x 2
  \/ elt x i = elt x 3.
Proof. destruct i as [ | [ [ | | ] | [ | | ] | ] | ]; cbn; auto. Qed.

Lemma int_ok_range (z : Z) : int_ok z = true <-> - 2 ^ 31 <= z < 2 ^ 31.
Proof. unfold int_ok. rewrite andb_true_iff, Z.leb_le, Z.ltb_lt. tauto. Qed.

Lemma scalarized_lanes (op : Z -> Z -> option Z) (a b c : v4int) :
  (forall x y r, - 2 ^ 31 <= x < 2 ^ 31 -> - 2 ^ 31 <= y < 2 ^ 31 ->
                 op x y = Some r -> - 2 ^ 31 <= r < 2 ^ 31) ->
  scalarized op a b = Some c ->
  forall i, op (v4int_get a i) (v4int_get b i) = Some (v4int_get c i).
Proof.
  intros Hop H.
  assert (K : forall x y r, op (lane_signed x) (lane_signed y) = Some r ->
              lane_signed (lane_of_Z r) = r).
  { intros x y r E. rewrite lane_signed_of_Z_swrap. apply swrap_small.
    apply (Hop _ _ _ (lane_signed_range x) (lane_signed_range y) E). }
  unfold scalarized in H.
  destruct (op (lane_signed (elt (v a) 0)) (lane_signed (elt (v b) 0)))
    as [r0 | ] eqn:E0; [ | discriminate ].
  destruct (op (lane_signed (elt (v a) 1)) (lane_signed (elt (v b) 1)))
    as [r1 | ] eqn:E1; [ | discriminate ].
  destruct (op (lane_signed (elt (v a) 2)) (lane_signed (elt (v b) 2)))
    as [r2 | ] eqn:E2; [ | discriminate ].
  destruct (op (lane_signed (elt (v a) 3)) (lane_signed (elt (v b) 3)))
    as [r3 | ] eqn:E3; [ | discriminate ].
  injection H as <-. intros i. unfold v4int_get. cbn [v].
  destruct i as [ | [ [ | | ] | [ | | ] | ] | ];
    cbn [elt vec_of_ints e0 e1 e2 e3];
    first [ rewrite (K _ _ _ E0); exact E0 | rewrite (K _ _ _ E1); exact E1
          | rewrite (K _ _ _ E2); exact E2 | rewrite (K _ _ _ E3); exact E3 ].
Qed.

Lemma scalarized_defined (op : Z -> Z -> option Z) (a b : v4int) :
  (forall i, op (v4int_get a i) (v4int_get b i) <> None) ->
  exists c, scalarized op a b = Some c.
Proof.
  intros H. unfold scalarized.
  pose proof (H 0) as H0. pose proof (H 1) as H1.
  pose proof (H 2) as H2. pose proof (H 3) as H3.
  unfold v4int_get in *.
  destruct (op (lane_signed (elt (v a) 0)) (lane_signed (elt (v b) 0)))
    as [r0 | ]; [ | contradiction ].
  destruct (op (lane_signed (elt (v a) 1)) (lane_signed (elt (v b) 1)))
    as [r1 | ]; [ | contradiction ].
  destruct (op (lane_signed (elt (v a) 2)) (lane_signed (elt (v b) 2)))
    as [r2 | ]; [ | contradiction ].
  destruct (op (lane_signed (elt (v a) 3)) (lane_signed (elt (v b) 3)))
    as [r3 | ]; [ | contradiction ].
  eexists. reflexivity.
Qed.

Lemma int_mul_range (x y r : Z) :
  - 2 ^ 31 <= x < 2 ^ 31 -> - 2 ^ 31 <= y < 2 ^ 31 ->
  int_mul x y = Some r -> - 2 ^ 31 <= r < 2 ^ 31.
Proof.
  intros _ _. unfold int_mul. destruct (int_ok (x * y)) eqn:E; [ | discriminate ].
  intros H. injection H as <-. apply int_ok_range, E.
Qed.

Lemma int_div_range (x y r : Z) :
  - 2 ^ 31 <= x < 2 ^ 31 -> - 2 ^ 31 <= y < 2 ^ 31 ->
  int_div x y = Some r -> - 2 ^ 31 <= r < 2 ^ 31.
Proof.
  intros _ _. unfold int_div.
  destruct (y =? 0); [ discriminate | ].
  destruct (int_ok (x ÷ y)) eqn:E; [ | discriminate ].
  cbn. intros H. injection H as <-. apply int_ok_range, E.
Qed.

Lemma int_mod_range (x y r : Z) :
  - 2 ^ 31 <= x < 2 ^ 31 -> - 2 ^ 31 <= y < 2 ^ 31 ->
  int_mod x y = Some r -> - 2 ^ 31 <= r < 2 ^ 31.
Proof.
  intros Hx Hy. unfold int_mod.
  destruct (y =? 0) eqn:E0; [ discriminate | ].
  destruct (int_ok (x ÷ y)); [ | discriminate ].
  cbn. intros H. injection H as <-. apply Z.eqb_neq in E0.
  pose proof (Z.rem_bound_abs x y E0). lia.
Qed.

(** X18: when [a / b] and [a % b] are defined, no lane of [b] is zero, the
    product [(a / b) * b] is defined and [(a / b) * b + a % b] is [a]; the
    remainder is smaller than the divisor in absolute value and has the
    sign of the dividend. *)
Theorem v4int_div_mod (a b q r : v4int) :
  v4int_div a b = Some q -> v4int_mod a b = Some r ->
  (forall i, v4int_get b i <> 0
             /\ Z.abs (v4int_get r i) < Z.abs (v4int_get b i)
             /\ 0 <= v4int_get r i * v4int_get a i)
  /\ exists p, v4int_mul q b = Some p /\ v4int_add p r = a.
Proof.
  intros Hq Hr.
  pose proof (scalarized_lanes int_div a b q int_div_range Hq) as Lq.
  pose proof (scalarized_lanes int_mod a b r int_mod_range Hr) as Lr.
  assert (F : forall i,
            v4int_get b i <> 0
            /\ v4int_get q i = v4int_get a i ÷ v4int_get b i
            /\ v4int_get r i = Z.rem (v4int_get a i) (v4int_get b i)).
  { intros i. specialize (Lq i). specialize (Lr i).
    unfold int_div in Lq. unfold int_mod in Lr.
    destruct (v4int_get b i =? 0) eqn:E0; [ discriminate | ].
    destruct (int_ok (v4int_get a i ÷ v4int_get b i)); [ | discriminate ].
    cbn in Lq, Lr. apply Z.eqb_neq in E0.
    injection Lq as Lq. injection Lr as Lr. auto. }
  split.
  - intros i. destruct (F i) as [Hb [_ Er]]. split; [ exact Hb | ].
    rewrite Er. split.
    + apply Z.rem_bound_abs, Hb.
    + apply Z.rem_sign_mul, Hb.
  - assert (G : forall i,
              int_mul (v4int_get q i) (v4int_get b i)
              = Some (v4int_get a i - v4int_get r i)).
    { intros i. destruct (F i) as [Hb [Eq Er]].
      pose proof (Z.quot_rem' (v4int_get a i) (v4int_get b i)) as QR.
      pose proof (Z.rem_sign_mul (v4int_get a i) (v4int_get b i) Hb) as S.
      pose proof (Z.rem_bound_abs (v4int_get a i) (v4int_get b i) Hb) as B.
      pose proof (lane_signed_range (elt (v a) i)) as Ra.
      fold (v4int_get a i) in Ra.
      rewrite <- Eq, <- Er in QR. rewrite <- Er in S.
      unfold int_mul.
      replace (v4int_get q i * v4int_get b i)
        with (v4int_get a i - v4int_get r i) by lia.
      assert (K : int_ok (v4int_get a i - v4int_get r i) = true).
      { apply int_ok_range.
        assert (Z.abs (v4int_get r i) <= Z.abs (v4int_get a i)).
        { rewrite Er, <- Z.rem_abs by exact Hb. apply Z.rem_le; lia. }
        assert (0 <= v4int_get a i -> 0 <= v4int_get r i) by nia.
        assert (v4int_get a i <= 0 -> v4int_get r i <= 0) by nia.
        lia. }
      rewrite K. reflexivity. }
    destruct (scalarized_defined int_mul q b) as [p Hp].
    { intros i. rewrite G. discriminate. }
    exists p. split; [ exact Hp | ].
    pose proof (scalarized_lanes int_mul q b p int_mul_range Hp) as Lp.
    apply v4_eq, vec_ext. intros i.
    specialize (Lp i). rewrite G in Lp. injection Lp as Lp.
    unfold v4int_add. cbn [v]. unfold vec_add_i. rewrite elt_vmap2.
    unfold v4int_get in Lp.
    rewrite <- (lane_of_Z_signed (elt (v a) i)).
    unfold lane_bitop. apply lane_of_Z_eq.
    rewrite <- !lane_signed_mod, <- Z.add_mod by lia.
    rewrite <- Lp. f_equal. lia.
Qed.

Lemma v4int_div_mod_witness :
  exists p,
    v4int_mul (v4int_of_ints (-3) (-3) (-715827882) 0)
              (v4int_of_ints 2 (-2) 3 5) = Some p
    /\ v4int_add p (v4int_of_ints (-1) 1 (-2) 0)
       = v4int_of_ints (-7) 7 (-2147483648) 0.
Proof.
  destruct (v4int_div_mod (v4int_of_ints (-7) 7 (-2147483648) 0)
                          (v4int_of_ints 2 (-2) 3 5)
                          (v4int_of_ints (-3) (-3) (-715827882) 0)
                          (v4int_of_ints (-1) 1 (-2) 0)) as [_ H].
  - vm_compute. reflexivity.
  - vm_compute. reflexivity.
  - exact H.
Defined.

(** ** Absolute value *)

(** X19: [abs] gives the absolute value of every lane except [-2^31], which
    it leaves as it is; applying it twice is applying it once. *)
Theorem v4int_abs (a : v4int) (i : Z) :
  (v4int_get a i <> - 2 ^ 31 -> v4int_get (abs a) i = Z.abs (v4int_get a i))
  /\ (v4int_get a i = - 2 ^ 31 -> v4int_get (abs a) i = - 2 ^ 31)
  /\ abs (abs a) = abs a.
Proof.
  assert (K : forall x : lane,
            lane_signed x <> - 2 ^ 31 ->
            lane_signed (lane_of_Z (Z.abs (lane_signed x)))
            = Z.abs (lane_signed x)).
  { intros x Hx. pose proof (lane_signed_range x).
    rewrite lane_signed_of_Z_swrap. apply swrap_small. lia. }
  unfold v4int_get, abs. cbn [v]. unfold vec_abs_i. rewrite !elt_vmap.
  split; [ | split ].
  - apply K.
  - intros ->. reflexivity.
  - apply v4_eq, vec_ext. intros j. cbn [v]. rewrite !elt_vmap.
    set (x := elt (v a) j).
    destruct (Z.eq_dec (lane_signed x) (- 2 ^ 31)) as [E | E].
    + rewrite E. reflexivity.
    + rewrite (K x E), Z.abs_idemp. reflexivity.
Qed.

Lemma v4int_abs_witness :
  v4int_get (abs (v4int_of_ints (-5) 5 0 (-2147483648))) 0 = 5
  /\ v4int_get (abs (v4int_of_ints (-5) 5 0 (-2147483648))) 3 = -2147483648.
Proof.
  split.
  - apply (v4int_abs (v4int_of_ints (-5) 5 0 (-2147483648)) 0).
    vm_compute. discriminate.
  - apply (v4int_abs (v4int_of_ints (-5) 5 0 (-2147483648)) 3).
    reflexivity.
Defined.

(** ** Masking *)

Ltac bit_cases :=
  rewrite ?lane_ones_bits by assumption; rewrite ?Z.bits_0;
  repeat match goal with
  | |- context [Z.testbit ?u ?i] => destruct (Z.testbit u i)
  end; reflexivity.

(** X20: for every mask [c], boolean or not, [merge(c,t,f)] is the bitwise
    or of [notczero(c,t)] and [czero(c,f)]; [czero] and [notczero] split a
    vector into two parts whose bitwise or is the vector again, and
    [czero(c,a)] is [notczero(~c,a)]. *)
Theorem czero_notczero_split (c : v4int) (a t f : v4) :
  merge c t f = v4int_or (notczero c t) (czero c f)
  /\ v4int_or (czero c a) (notczero c a) = a
  /\ czero c (notczero c a) = V4 _false
  /\ notczero c (czero c a) = V4 _false
  /\ czero c (czero c a) = czero c a
  /\ notczero c (notczero c a) = notczero c a
  /\ czero c a = notczero (v4int_not c) a
  /\ czero (V4 _false) a = a
  /\ notczero (V4 _true) a = a.
Proof.
  unfold merge, czero, notczero, v4int_or, v4int_not.
  repeat split; by_lanes; lane_bitwise; bit_cases.
Qed.

(** ** Reductions *)

Lemma any_lanes (a : v4) :
  any a = if lane_true (elt (v a) 0) || lane_true (elt (v a) 1)
             || lane_true (elt (v a) 2) || lane_true (elt (v a) 3)
          then 1 else 0.
Proof. destruct a as [[x0 x1 x2 x3]]. reflexivity. Qed.

Lemma all_lanes (a : v4) :
  all a = if lane_true (elt (v a) 0) && lane_true (elt (v a) 1)
             && lane_true (elt (v a) 2) && lane_true (elt (v a) 3)
          then 1 else 0.
Proof. destruct a as [[x0 x1 x2 x3]]. reflexivity. Qed.

Lemma lane_true_false_iff (x : lane) : lane_true x = false <-> x = lane_zero.
Proof.
  unfold lane_true. rewrite negb_false_iff. apply lane_eqb_eq.
Qed.

Lemma lane_true_get (a : v4int) (i : Z) :
  lane_true (elt (v a) i) = true <-> v4int_get a i <> 0.
Proof.
  rewrite lane_true_signed, negb_true_iff, Z.eqb_neq. reflexivity.
Qed.

(** X21: [any(a)] is 0 exactly when [a] is the zero vector and [all(a)] is
    1 exactly when no lane of [a] is zero; both are 0 or 1, [all] implies
    [any], and [!] exchanges them as de Morgan's laws say. *)
Theorem any_all_reduce (a : v4int) :
  (any a = 0 <-> a = V4 _false)
  /\ (all a = 1 <-> forall i, v4int_get a i <> 0)
  /\ (any a = 0 \/ any a = 1)
  /\ 0 <= all a <= any a
  /\ any (v4int_lnot a) = 1 - all a
  /\ all (v4int_lnot a) = 1 - any a.
Proof.
  split; [ | split; [ | split; [ | split; [ | split ] ] ] ].
  - rewrite any_lanes. split.
    + intros H. apply v4_eq, vec_ext. intros i. rewrite elt_false.
      apply lane_true_false_iff.
      destruct (lane_true (elt (v a) 0)) eqn:E0; [ discriminate | ].
      destruct (lane_true (elt (v a) 1)) eqn:E1; [ discriminate | ].
      destruct (lane_true (elt (v a) 2)) eqn:E2; [ discriminate | ].
      destruct (lane_true (elt (v a) 3)) eqn:E3; [ discriminate | ].
      destruct (elt_cases (v a) i) as [-> | [-> | [-> | ->]]]; assumption.
    + intros ->. reflexivity.
  - rewrite all_lanes. split.
    + intros H i. apply lane_true_get.
      destruct (lane_true (elt (v a) 0)) eqn:E0; [ | discriminate ].
      destruct (lane_true (elt (v a) 1)) eqn:E1; [ | discriminate ].
      destruct (lane_true (elt (v a) 2)) eqn:E2; [ | discriminate ].
      destruct (lane_true (elt (v a) 3)) eqn:E3; [ | discriminate ].
      destruct (elt_cases (v a) i) as [-> | [-> | [-> | ->]]]; assumption.
    + intros H.
      rewrite (proj2 (lane_true_get a 0) (H 0)), (proj2 (lane_true_get a 1) (H 1)),
        (proj2 (lane_true_get a 2) (H 2)), (proj2 (lane_true_get a 3) (H 3)).
      reflexivity.
  - rewrite any_lanes.
    destruct (lane_true (elt (v a) 0) || lane_true (elt (v a) 1)
              || lane_true (elt (v a) 2) || lane_true (elt (v a) 3)); auto.
  - rewrite any_lanes, all_lanes.
    destruct (lane_true (elt (v a) 0)), (lane_true (elt (v a) 1)),
      (lane_true (elt (v a) 2)), (lane_true (elt (v a) 3)); cbn; lia.
  - rewrite any_lanes, all_lanes, !elt_v4int_lnot, !lane_true_mask.
    destruct (lane_true (elt (v a) 0)), (lane_true (elt (v a) 1)),
      (lane_true (elt (v a) 2)), (lane_true (elt (v a) 3)); reflexivity.
  - rewrite any_lanes, all_lanes, !elt_v4int_lnot, !lane_true_mask.
    destruct (lane_true (elt (v a) 0)), (lane_true (elt (v a) 1)),
      (lane_true (elt (v a) 2)), (lane_true (elt (v a) 3)); reflexivity.
Qed.

Lemma any_all_reduce_witness :
  any (V4 _false) = 0 /\ all (v4int_of_ints 1 (-1) 7 2147483647) = 1.
Proof.
  split.
  - apply (any_all_reduce (V4 _false)). reflexivity.
  - apply (any_all_reduce (v4int_of_ints 1 (-1) 7 2147483647)).
    intros i. apply lane_true_get.
    destruct (elt_cases (v (v4int_of_ints 1 (-1) 7 2147483647)) i)
      as [-> | [-> | [-> | ->]]]; reflexivity.
Defined.

(** ** The sign bit of floats *)

Lemma b32_decode_set_sign (x y : lane) (s : bool) :
  (forall i, 0 <= i < 31 ->
     Z.testbit (lane_unsigned y) i = Z.testbit (lane_unsigned x) i) ->
  Z.testbit (lane_unsigned y) 31 = s ->
  b32_decode y = SFset_sign s (b32_decode x).
Proof.
  intros H Hs. unfold b32_decode. cbv zeta.
  assert (He : Z.land (Z.shiftr (lane_unsigned y) 23) 255
               = Z.land (Z.shiftr (lane_unsigned x) 23) 255).
  { apply Z.bits_inj'. intros n Hn.
    rewrite !Z.land_spec, !Z.shiftr_spec by lia.
    change 255 with (Z.ones 8).
    destruct (Z_lt_dec n 8) as [L | L].
    - rewrite H by lia. reflexivity.
    - rewrite Z.ones_spec_high by lia. rewrite !andb_false_r. reflexivity. }
  assert (Hf : Z.land (lane_unsigned y) (Z.ones 23)
               = Z.land (lane_unsigned x) (Z.ones 23)).
  { apply Z.bits_inj'. intros n Hn. rewrite !Z.land_spec.
    destruct (Z_lt_dec n 23) as [L | L].
    - rewrite H by lia. reflexivity.
    - rewrite Z.ones_spec_high by lia. rewrite !andb_false_r. reflexivity. }
  rewrite He, Hf, Hs.
  destruct (Z.land (Z.shiftr (lane_unsigned x) 23) 255 =? 0).
  - destruct (Z.land (lane_unsigned x) (Z.ones 23)); reflexivity.
  - destruct (Z.land (Z.shiftr (lane_unsigned x) 23) 255 =? 255).
    + destruct (Z.land (lane_unsigned x) (Z.ones 23) =? 0); reflexivity.
    + destruct (Z.land (lane_unsigned x) (Z.ones 23) + 2 ^ 23); reflexivity.
Qed.

Lemma sign_mask_bits (i : Z) :
  0 <= i < 32 -> Z.testbit (Z.shiftl 1 31) i = (i =? 31).
Proof.
  intros Hi. change (Z.shiftl 1 31) with (2 ^ 31).
  destruct (i =? 31) eqn:E.
  - apply Z.eqb_eq in E. subst. reflexivity.
  - apply Z.eqb_neq in E. apply Z.pow2_bits_false. lia.
Qed.

Lemma elt_sign (i : Z) : elt _sign i = lane_of_Z (Z.shiftl 1 31).
Proof. destruct i as [ | [ [ | | ] | [ | | ] | ] | ]; reflexivity. Qed.

Lemma SFabs_set_sign (x : spec_float) : SFabs x = SFset_sign false x.
Proof. destruct x; reflexivity. Qed.

Lemma SFopp_set_sign (x : lane) :
  SFopp (b32_decode x) = SFset_sign (negb (lane_sign x)) (b32_decode x).
Proof.
  rewrite (b32_decode_set_sign x x (lane_sign x)) at 1 by reflexivity.
  destruct (b32_decode x); reflexivity.
Qed.

(** X22: [fabs] clears the sign of every lane and keeps the rest of the
    float, [copysign(a,b)] gives lane [i] of [a] the sign of lane [i] of
    [b], and toggling the sign bit negates the float; a NaN stays a NaN
    under each. *)
Theorem float_sign_bit (a b : v4float) (i : Z) :
  let x := elt (v a) i in
  let y := elt (v b) i in
  b32_decode (elt (v (fabs a)) i) = SFabs (b32_decode x)
  /\ b32_decode (elt (v (copysign a b)) i)
     = SFset_sign (lane_sign y) (b32_decode x)
  /\ b32_decode (elt (v (toggle_bits (V4 _sign) a)) i) = SFopp (b32_decode x)
  /\ b32_decode (elt (v (set_bits (V4 _sign) a)) i)
     = SFopp (SFabs (b32_decode x))
  /\ clear_bits (V4 _sign) a = fabs a
  /\ copysign a a = a
  /\ fabs (copysign a b) = fabs a
  /\ copysign (copysign a b) a = a.
Proof.
  intros x y.
  assert (S31 : forall j, 0 <= j < 31 -> Z.testbit (Z.shiftl 1 31) j = false).
  { intros j Hj. rewrite sign_mask_bits by lia.
    apply Z.eqb_neq. lia. }
  assert (T31 : Z.testbit (Z.shiftl 1 31) 31 = true) by reflexivity.
  unfold fabs, copysign, toggle_bits, set_bits, clear_bits. cbn [v].
  unfold vec_andc, vec_or, vec_and, vec_xor.
  split; [ | split; [ | split; [ | split ] ] ].
  - rewrite SFabs_set_sign, elt_vmap2, elt_sign. fold x.
    apply b32_decode_set_sign.
    + intros j Hj. unfold lane_bitop.
      rewrite !lane_unsigned_of_Z_bits, Z.ldiff_spec by lia.
      rewrite lane_unsigned_of_Z_bits, S31 by lia. apply andb_true_r.
    + unfold lane_bitop.
      rewrite !lane_unsigned_of_Z_bits, Z.ldiff_spec by lia.
      rewrite lane_unsigned_of_Z_bits, T31 by lia. apply andb_false_r.
  - rewrite !elt_vmap2, elt_sign. fold x y.
    apply b32_decode_set_sign.
    + intros j Hj. unfold lane_bitop.
      rewrite !lane_unsigned_of_Z_bits, Z.lor_spec by lia.
      rewrite !lane_unsigned_of_Z_bits, Z.ldiff_spec, Z.land_spec by lia.
      rewrite lane_unsigned_of_Z_bits, S31 by lia.
      rewrite andb_false_r, orb_false_r. apply andb_true_r.
    + unfold lane_bitop, lane_sign.
      rewrite !lane_unsigned_of_Z_bits, Z.lor_spec by lia.
      rewrite !lane_unsigned_of_Z_bits, Z.ldiff_spec, Z.land_spec by lia.
      rewrite lane_unsigned_of_Z_bits, T31 by lia.
      rewrite andb_false_r, andb_true_r. reflexivity.
  - rewrite (SFopp_set_sign x), elt_vmap2, elt_sign. fold x.
    apply b32_decode_set_sign.
    + intros j Hj. unfold lane_bitop.
      rewrite !lane_unsigned_of_Z_bits, Z.lxor_spec by lia.
      rewrite lane_unsigned_of_Z_bits, S31 by lia. apply xorb_false_r.
    + unfold lane_bitop, lane_sign.
      rewrite !lane_unsigned_of_Z_bits, Z.lxor_spec by lia.
      rewrite lane_unsigned_of_Z_bits, T31 by lia. apply xorb_true_r.
  - rewrite elt_vmap2, elt_sign. fold x.
    rewrite (b32_decode_set_sign x (lane_bitop Z.lor x (lane_of_Z (Z.shiftl 1 31))) true).
    + destruct (b32_decode x); reflexivity.
    + intros j Hj. unfold lane_bitop.
      rewrite !lane_unsigned_of_Z_bits, Z.lor_spec by lia.
      rewrite lane_unsigned_of_Z_bits, S31 by lia. apply orb_false_r.
    + unfold lane_bitop.
      rewrite !lane_unsigned_of_Z_bits, Z.lor_spec by lia.
      rewrite lane_unsigned_of_Z_bits, T31 by lia. apply orb_true_r.
  - repeat split; apply v4_eq, vec_ext; intros j; cbn [v];
      rewrite ?elt_vmap2; rewrite ?elt_vmap2; rewrite ?elt_vmap2;
      rewrite ?elt_sign; try reflexivity;
      lane_bitwise;
      repeat (rewrite lane_unsigned_of_Z_bits by assumption);
      rewrite ?Z.lor_spec, ?Z.land_spec, ?Z.lxor_spec, ?Z.ldiff_spec;
      repeat (rewrite lane_unsigned_of_Z_bits by assumption);
      repeat match goal with
      | |- context [Z.testbit ?u ?i] => destruct (Z.testbit u i)
      end; reflexivity.
Qed.

(** ** Comparisons of floats *)

Lemma SFcompare_antisym (x y : spec_float) :
  SFcompare y x = option_map CompOpp (SFcompare x y).
Proof.
  destruct x as [s | s | | s m e], y as [t | t | | t n f]; cbn;
    try reflexivity;
    try (destruct s; reflexivity);
    try (destruct t; reflexivity);
    try (destruct s, t; reflexivity).
  f_equal.
  change (Pos.compare_cont Eq n m) with (Pos.compare n m).
  change (Pos.compare_cont Eq m n) with (Pos.compare m n).
  rewrite (Z.compare_antisym e f), (Pos.compare_antisym m n).
  destruct s, t; try reflexivity;
    destruct (e ?= f); cbn; try reflexivity;
    destruct (m ?= n)%positive; reflexivity.
Qed.

Lemma SFcompare_nan (x y : spec_float) :
  x = S754_nan \/ y = S754_nan -> SFcompare x y = None.
Proof. intros [-> | ->]; [ | destruct x ]; reflexivity. Qed.

Lemma SFcompare_some (x y : spec_float) :
  x <> S754_nan -> y <> S754_nan -> exists c, SFcompare x y = Some c.
Proof.
  intros Hx Hy.
  destruct x as [s | s | | s m e]; try contradiction;
    destruct y as [t | t | | t n f]; try contradiction;
    cbn; eexists; reflexivity.
Qed.

(** X23: the comparisons of [v4float] compare the lanes as floats and
    [a != b] is [!(a == b)]. A comparison with a NaN lane is false for
    [<], [>], [==], [<=], [>=] and true for [!=]; when neither lane is a
    NaN, lane [i] of [a <= b] is that of [!(a > b)], lane [i] of [a >= b]
    that of [!(a < b)], and exactly one of the lanes [i] of [a < b],
    [a == b] and [a > b] is true. *)
Theorem v4float_comparisons (a b : v4float) (i : Z) :
  let x := b32_decode (elt (v a) i) in
  let y := b32_decode (elt (v b) i) in
  let r_lt := elt (v (v4float_lt a b)) i in
  let r_gt := elt (v (v4float_gt a b)) i in
  let r_eq := elt (v (v4float_eq a b)) i in
  let r_ne := elt (v (v4float_ne a b)) i in
  let r_le := elt (v (v4float_le a b)) i in
  let r_ge := elt (v (v4float_ge a b)) i in
  (r_lt = mask_of_bool (SFltb x y) /\ r_gt = mask_of_bool (SFltb y x)
   /\ r_eq = mask_of_bool (SFeqb x y) /\ r_ne = mask_of_bool (negb (SFeqb x y))
   /\ r_le = mask_of_bool (SFleb x y) /\ r_ge = mask_of_bool (SFleb y x))
  /\ v4float_ne a b = v4int_lnot (v4float_eq a b)
  /\ (x = S754_nan \/ y = S754_nan ->
      r_lt = lane_zero /\ r_gt = lane_zero /\ r_eq = lane_zero
      /\ r_le = lane_zero /\ r_ge = lane_zero /\ r_ne = lane_ones)
  /\ (x <> S754_nan -> y <> S754_nan ->
      r_le = elt (v (v4int_lnot (v4float_gt a b))) i
      /\ r_ge = elt (v (v4int_lnot (v4float_lt a b))) i
      /\ (if lane_true r_lt then 1 else 0) + (if lane_true r_eq then 1 else 0)
         + (if lane_true r_gt then 1 else 0) = 1).
Proof.
  intros x y r_lt r_gt r_eq r_ne r_le r_ge.
  assert (E : forall j,
            elt (v (v4float_ne a b)) j
            = mask_of_bool
                (negb (SFeqb (b32_decode (elt (v a) j)) (b32_decode (elt (v b) j))))).
  { intros j. unfold v4float_ne. cbn [v]. unfold vec_xor, vec_cmpeq_f.
    rewrite !elt_vmap2, elt_true. apply lane_xor_mask_ones. }
  assert (P : r_lt = mask_of_bool (SFltb x y) /\ r_gt = mask_of_bool (SFltb y x)
              /\ r_eq = mask_of_bool (SFeqb x y)
              /\ r_ne = mask_of_bool (negb (SFeqb x y))
              /\ r_le = mask_of_bool (SFleb x y) /\ r_ge = mask_of_bool (SFleb y x)).
  { unfold r_lt, r_gt, r_eq, r_ne, r_le, r_ge. rewrite E.
    unfold v4float_lt, v4float_gt, v4float_eq, v4float_le, v4float_ge.
    cbn [v].
    unfold vec_cmplt_f, vec_cmpgt_f, vec_cmpeq_f, vec_cmple_f, vec_cmpge_f.
    rewrite !elt_vmap2. repeat split; reflexivity. }
  destruct P as [Plt [Pgt [Peq [Pne [Ple Pge]]]]].
  split; [ repeat split; assumption | ].
  split; [ | split ].
  - apply v4_eq, vec_ext. intros j. rewrite E, elt_v4int_lnot.
    unfold v4float_eq. cbn [v]. unfold vec_cmpeq_f.
    rewrite elt_vmap2, lane_true_mask. reflexivity.
  - intros H. rewrite Plt, Pgt, Peq, Pne, Ple, Pge.
    unfold SFeqb, SFltb, SFleb.
    rewrite (SFcompare_nan x y H).
    rewrite (SFcompare_nan y x) by tauto.
    repeat split; reflexivity.
  - intros Hx Hy. rewrite !elt_v4int_lnot.
    fold r_gt r_lt. rewrite Plt, Pgt, Peq, Ple, Pge, !lane_true_mask.
    unfold SFeqb, SFltb, SFleb.
    destruct (SFcompare_some x y Hx Hy) as [c Hc].
    rewrite (SFcompare_antisym x y), Hc.
    destruct c; repeat split; reflexivity.
Qed.

Lemma v4float_comparisons_witness :
  elt (v (v4float_ne (V4 (vec_of_ints 2143289344 0 0 0)) (V4 _one))) 0
  = lane_ones
  /\ elt (v (v4float_le (V4 _one) (V4 _half))) 1
     = elt (v (v4int_lnot (v4float_gt (V4 _one) (V4 _half)))) 1.
Proof.
  split.
  - apply (v4float_comparisons (V4 (vec_of_ints 2143289344 0 0 0)) (V4 _one) 0).
    left. reflexivity.
  - apply (v4float_comparisons (V4 _one) (V4 _half) 1); vm_compute; discriminate.
Defined.

Lemma elt_zero_decode (i : Z) : b32_decode (elt _zero i) = S754_zero false.
Proof. rewrite elt_zero. reflexivity. Qed.

(** X24: [!], [&&] and [||] of [v4float] follow C, a lane being true unless
    it compares equal to zero: both zeros are false and a NaN is true;
    with the [!] of [v4int] on the results de Morgan's laws hold. *)
Theorem v4float_logical (a b : v4float) (i : Z) :
  let x := elt (v a) i in
  let y := elt (v b) i in
  elt (v (v4float_lnot a)) i = mask_of_bool (negb (float_true x))
  /\ elt (v (v4float_land a b)) i = mask_of_bool (float_true x && float_true y)
  /\ elt (v (v4float_lor a b)) i = mask_of_bool (float_true x || float_true y)
  /\ (forall s, b32_decode x = S754_zero s -> float_true x = false)
  /\ (b32_decode x = S754_nan -> float_true x = true)
  /\ v4int_lnot (v4float_land a b) = v4int_lor (v4float_lnot a) (v4float_lnot b)
  /\ v4int_lnot (v4float_lor a b) = v4int_land (v4float_lnot a) (v4float_lnot b)
  /\ v4int_lnot (v4float_lnot a) = v4float_lor a a.
Proof.
  assert (N : forall c : v4float, forall j,
            elt (v (v4float_lnot c)) j
            = mask_of_bool (negb (float_true (elt (v c) j)))).
  { intros c j. unfold v4float_lnot, float_true. cbn [v]. unfold vec_cmpeq_f.
    rewrite elt_vmap2, elt_zero_decode, negb_involutive. reflexivity. }
  assert (A : forall c d : v4float, forall j,
            elt (v (v4float_land c d)) j
            = mask_of_bool (float_true (elt (v c) j) && float_true (elt (v d) j))).
  { intros c d j. unfold v4float_land, float_true. cbn [v].
    unfold vec_xor, vec_or, vec_cmpeq_f.
    rewrite !elt_vmap2, !elt_true, !elt_zero_decode, lane_or_mask,
      lane_xor_mask_ones, negb_orb. reflexivity. }
  assert (O : forall c d : v4float, forall j,
            elt (v (v4float_lor c d)) j
            = mask_of_bool (float_true (elt (v c) j) || float_true (elt (v d) j))).
  { intros c d j. unfold v4float_lor, float_true. cbn [v].
    unfold vec_xor, vec_and, vec_cmpeq_f.
    rewrite !elt_vmap2, !elt_true, !elt_zero_decode, lane_and_mask,
      lane_xor_mask_ones, negb_andb. reflexivity. }
  intros x y.
  split; [ apply N | ]. split; [ apply A | ]. split; [ apply O | ].
  split; [ | split ].
  - intros s H. unfold float_true. rewrite H. reflexivity.
  - intros H. unfold float_true. rewrite H. reflexivity.
  - split; [ | split ]; apply v4_eq, vec_ext; intros j.
    + rewrite elt_v4int_lnot, elt_v4int_lor, A, !N, !lane_true_mask, negb_andb.
      reflexivity.
    + rewrite elt_v4int_lnot, elt_v4int_land, O, !N, !lane_true_mask, negb_orb.
      reflexivity.
    + rewrite elt_v4int_lnot, O, N, lane_true_mask, negb_involutive, orb_diag.
      reflexivity.
Qed.

Lemma v4float_logical_witness :
  float_true (elt (v (V4 (vec_of_ints (-2147483648) 0 0 0))) 0) = false
  /\ float_true (elt (v (V4 (vec_of_ints 2143289344 0 0 0))) 0) = true.
Proof.
  split.
  - apply (v4float_logical (V4 (vec_of_ints (-2147483648) 0 0 0)) (V4 _one) 0
             : _ /\ _ /\ _ /\ (forall s, _ -> _) /\ _) with (s := true).
    reflexivity.
  - apply (v4float_logical (V4 (vec_of_ints 2143289344 0 0 0)) (V4 _one) 0).
    reflexivity.
Defined.

(** ** Updates in memory *)

(** X25: [increment_4x1], [decrement_4x1] and [scale_4x1] leave in the
    block of [p] the sum, the difference and the product of what it held
    and [a], as [+], [-] and [*] of [v4float] compute them, and change no
    byte outside the block of an aligned pointer. *)
Theorem update_4x1 (U : fpu) (p : Z) (a : v4float) (m : mem) :
  load_4x1 p (increment_4x1 p a m) = v4float_add (load_4x1 p m) a
  /\ load_4x1 p (decrement_4x1 p a m) = v4float_sub (load_4x1 p m) a
  /\ load_4x1 p (scale_4x1 p a m) = v4float_mul (load_4x1 p m) a
  /\ increment_4x1 p a m = store_4x1 (v4float_add (load_4x1 p m) a) p m
  /\ decrement_4x1 p a m = store_4x1 (v4float_sub (load_4x1 p m) a) p m
  /\ scale_4x1 p a m = store_4x1 (v4float_mul (load_4x1 p m) a) p m
  /\ (aligned16 p ->
      forall q : Z, ~ in_range p 16 q ->
        increment_4x1 p a m q = m q
        /\ decrement_4x1 p a m q = m q
        /\ scale_4x1 p a m q = m q).
Proof.
  unfold increment_4x1, decrement_4x1, scale_4x1, load_4x1, store_4x1,
    v4float_add, v4float_sub, v4float_mul.
  cbn [v]. rewrite !vec_ld_st_same.
  repeat split; try reflexivity;
    rewrite vec_st_outside by (rewrite vec_ea_aligned; assumption);
    reflexivity.
Qed.

Lemma update_4x1_witness :
  increment_4x1 (U := ref_fpu) 32 ex_a zero_mem 48 = zero_mem 48.
Proof.
  destruct (update_4x1 ref_fpu 32 ex_a zero_mem) as [_ [_ [_ [_ [_ [_ H]]]]]].
  apply H; [ reflexivity | unfold in_range; lia ].
Defined.

(** ** Operators written twice *)

(** X26: [sqrt(a)] is bit for bit [a * rsqrt(a)]; [r /= a] leaves in [r]
    what [r / a] returns, which is [r * rcp(a)], and [+=], [-=], [*=] leave
    what [+], [-], [*] return; [a * b] is [fma(a,b,0)], [fms] is the
    negation of [fnms], and prefix and postfix [++] and [--] leave the
    same new value [a + 1] or [a - 1], the postfix forms returning the old
    one. *)
Theorem v4float_operators_agree (U : fpu) (a b c r : v4float) :
  sqrt a = v4float_mul a (rsqrt a)
  /\ v4float_div_assign r a = v4float_div r a
  /\ v4float_div_assign r a = v4float_mul r (rcp a)
  /\ v4float_add_assign r b = v4float_add r b
  /\ v4float_sub_assign r b = v4float_sub r b
  /\ v4float_mul_assign r b = v4float_mul r b
  /\ v4float_mul a b = fma a b (V4 _zero)
  /\ fms a b c = v4float_neg (fnms a b c)
  /\ v4float_pre_inc a = (v4float_add a (V4 _one), v4float_add a (V4 _one))
  /\ v4float_post_inc a = (v4float_add a (V4 _one), a)
  /\ v4float_pre_dec a = (v4float_sub a (V4 _one), v4float_sub a (V4 _one))
  /\ v4float_post_dec a = (v4float_sub a (V4 _one), a).
Proof.
  destruct a as [x]. repeat split; reflexivity.
Qed.

(** ** Transposed access through [transpose] *)

(** X27: [load_4x4_tr] is four loads followed by [transpose] and
    [store_4x4_tr] is [transpose] followed by four stores; [load_4x3_tr]
    returns the first three vectors of [load_4x4_tr]. *)
Theorem transposed_access_composes (a b c d : v4) (pa pb pc pd : Z) (m : mem) :
  load_4x4_tr pa pb pc pd m
  = transpose (load_4x1 pa m) (load_4x1 pb m) (load_4x1 pc m) (load_4x1 pd m)
  /\ store_4x4_tr a b c d pa pb pc pd m
     = (let '(a', b', c', d') := transpose a b c d in
        store_4x1 d' pd (store_4x1 c' pc (store_4x1 b' pb (store_4x1 a' pa m))))
  /\ load_4x3_tr pa pb pc pd m
     = (let '(a', b', c', _) := load_4x4_tr pa pb pc pd m in (a', b', c')).
Proof.
  repeat split; reflexivity.
Qed.

(** ** Accuracy of the quotient and of the square root *)

Section DerivedAccuracy.
Local Open Scope R_scope.

Lemma second_step_small :
  rcp_bound (2 / 10000000) (/ 16777216) <= 1 / 10000000
  /\ rsqrt_bound (2 / 10000000) (/ 16777216) <= 1 / 10000000.
Proof. unfold rcp_bound, rsqrt_bound. split; lra. Qed.

(** The error of [q], a rounding of [t * w], as an approximation of [t],
    when [w] is close to 1. *)
Lemma scaled_product_error (q t w u e : R) :
  0 <= u -> 0 <= e ->
  Rabs (q - t * w) <= u * Rabs (t * w) -> Rabs (w - 1) <= e ->
  Rabs (q - t) <= (e + u * (1 + e)) * Rabs t.
Proof.
  intros Hu He Hq Hw.
  assert (Ww : Rabs w <= 1 + e).
  { replace w with (1 + (w - 1)) by ring. apply Rabs_one_plus. exact Hw. }
  rewrite Rabs_mult in Hq.
  replace (q - t) with ((q - t * w) + t * (w - 1)) by ring.
  eapply Rle_trans; [ apply Rabs_triang | ].
  rewrite (Rabs_mult t (w - 1)).
  pose proof (Rabs_pos t) as Ht.
  assert (H1 : Rabs t * Rabs w <= Rabs t * (1 + e))
    by (apply Rmult_le_compat_l; assumption).
  assert (H2 : u * (Rabs t * Rabs w) <= u * (Rabs t * (1 + e)))
    by (apply Rmult_le_compat_l; assumption).
  assert (H3 : Rabs t * Rabs (w - 1) <= Rabs t * e)
    by (apply Rmult_le_compat_l; assumption).
  lra.
Qed.

(** X28: for a finite lane [x > 0] of [a], when the estimate of the unit
    is finite and within one part in 4096 and each fused operation returns
    its exact result rounded to nearest, lane [i] of [n / a] is finite and
    within two parts in ten million of the quotient of the lanes, and lane
    [i] of [sqrt(a)] of the square root of [x]. *)
Theorem div_sqrt_accurate (U : fpu) (n a : v4float) (i : Z) :
  let x := elt (v a) i in
  let k := elt (v n) i in
  lane_finite x = true -> 0 < lane_R x ->
  (within (/ 4096) (fp_re x) (/ lane_R x) ->
   rcp_step_rounds (fp_re x) x ->
   rcp_step_rounds (rcp_step (fp_re x) x) x ->
   madd_rounds k (rcp_step (rcp_step (fp_re x) x) x) (elt _zero 0) ->
   within (2 / 10000000) (elt (v (v4float_div n a)) i) (lane_R k / lane_R x))
  /\ (within (/ 4096) (fp_rsqrte x) (/ R_sqrt.sqrt (lane_R x)) ->
      rsqrt_step_rounds (fp_rsqrte x) x ->
      rsqrt_step_rounds (rsqrt_step (fp_rsqrte x) x) x ->
      madd_rounds x (rsqrt_step (rsqrt_step (fp_rsqrte x) x) x) (elt _zero 0) ->
      within (2 / 10000000) (elt (v (sqrt a)) i) (R_sqrt.sqrt (lane_R x))).
Proof.
  intros x k Hfin Hpos. split.
  - intros [_ Hest] H1 H2 [Ffin Hm].
    change (v4float_div n a) with (v4float_mul n (rcp a)).
    unfold v4float_mul, vec_madd. change (v (V4 ?y)) with y.
    rewrite elt_vmap3, elt_rcp, elt_zero. fold x k.
    apply estimate_error in Hest; [ | assumption | lra ].
    destruct (rcp_step_error U _ _ (/ 4096) Hpos ltac:(lra) Hest H1) as [_ E1].
    destruct rcp_two_steps_small as [B1 _].
    destruct second_step_small as [B2 _].
    assert (E1' : Rabs (lane_R (rcp_step (fp_re x) x) * lane_R x - 1)
                  <= 2 / 10000000) by (unfold u24 in E1; lra).
    destruct (rcp_step_error U _ _ (2 / 10000000) Hpos ltac:(lra) E1' H2)
      as [_ E2].
    assert (E2' : Rabs (lane_R (rcp_step (rcp_step (fp_re x) x) x) * lane_R x - 1)
                  <= 1 / 10000000) by (unfold u24 in E2; lra).
    split; [ exact Ffin | ].
    rewrite lane_R_zero, Rplus_0_r in Hm.
    set (B := lane_R (rcp_step (rcp_step (fp_re x) x) x)) in *.
    replace (lane_R k * B) with (lane_R k / lane_R x * (B * lane_R x)) in Hm
      by (field; lra).
    pose proof (scaled_product_error _ _ _ u24 (1 / 10000000)
                  ltac:(unfold u24; lra) ltac:(lra) Hm E2') as S.
    eapply Rle_trans; [ exact S | ].
    apply Rmult_le_compat_r; [ apply Rabs_pos | unfold u24; lra ].
  - intros [_ Hest] H1 H2 [Ffin Hm].
    assert (Hr : 0 < R_sqrt.sqrt (lane_R x)) by (apply sqrt_lt_R0; assumption).
    change (sqrt a) with (v4float_mul a (rsqrt a)).
    unfold v4float_mul, vec_madd. change (v (V4 ?y)) with y.
    rewrite elt_vmap3, elt_rsqrt, elt_zero. fold x.
    apply estimate_error in Hest; [ | assumption | lra ].
    destruct (rsqrt_step_error U _ _ (/ 4096) Hpos ltac:(lra) Hest H1) as [_ E1].
    destruct rsqrt_two_steps_small as [B1 _].
    destruct second_step_small as [_ B2].
    assert (E1' : Rabs (lane_R (rsqrt_step (fp_rsqrte x) x)
                        * R_sqrt.sqrt (lane_R x) - 1)
                  <= 2 / 10000000) by (unfold u24 in E1; lra).
    destruct (rsqrt_step_error U _ _ (2 / 10000000) Hpos ltac:(lra) E1' H2)
      as [_ E2].
    assert (E2' : Rabs (lane_R (rsqrt_step (rsqrt_step (fp_rsqrte x) x) x)
                        * R_sqrt.sqrt (lane_R x) - 1)
                  <= 1 / 10000000) by (unfold u24 in E2; lra).
    split; [ exact Ffin | ].
    rewrite lane_R_zero, Rplus_0_r in Hm.
    set (B := lane_R (rsqrt_step (rsqrt_step (fp_rsqrte x) x) x)) in *.
    set (s := R_sqrt.sqrt (lane_R x)) in *.
    assert (Hs : lane_R x = s * s) by (symmetry; apply sqrt_sqrt; lra).
    replace (lane_R x * B) with (s * (B * s)) in Hm by (rewrite Hs; ring).
    pose proof (scaled_product_error _ _ _ u24 (1 / 10000000)
                  ltac:(unfold u24; lra) ltac:(lra) Hm E2') as S.
    eapply Rle_trans; [ exact S | ].
    apply Rmult_le_compat_r; [ apply Rabs_pos | unfold u24; lra ].
Qed.

(** The value of the closed elements of the goal, with the powers of two
    as integer constants. *)
Ltac lane_values :=
  unfold lane_R;
  repeat match goal with
  | |- context [b32_decode ?x] =>
      let y := eval vm_compute in (b32_decode x) in
      replace (b32_decode x) with y by (vm_compute; reflexivity)
  end;
  unfold SF2R;
  rewrite ?powerRZ_2_pos, ?powerRZ_2_neg;
  repeat match goal with
  | |- context [IZR (2 ^ Zpos ?p)] =>
      let c := eval vm_compute in (2 ^ Zpos p)%Z in
      change (2 ^ Zpos p)%Z with c
  end.

(** A closed element is finite and within [u24] of a closed rational. *)
Ltac rounds_to_nearest :=
  unfold nmsub_rounds, madd_rounds;
  split;
  [ vm_compute; reflexivity
  | apply Rabs_rel_sq; [ unfold u24; lra | unfold u24; lane_values; lra ] ].

Lemma div_sqrt_accurate_witness :
  within (2 / 10000000) (elt (v (v4float_div (U := ref_fpu) twos threes)) 0)
         (lane_R (elt (v twos) 0) / lane_R (elt (v threes) 0))
  /\ within (2 / 10000000) (elt (v (sqrt (U := ref_fpu) threes)) 0)
            (R_sqrt.sqrt (lane_R (elt (v threes) 0))).
Proof.
  assert (Hfin : lane_finite (elt (v threes) 0) = true) by reflexivity.
  assert (Hpos : 0 < lane_R (elt (v threes) 0)) by (lane_values; lra).
  destruct (div_sqrt_accurate ref_fpu twos threes 0 Hfin Hpos) as [Hdiv Hsqrt].
  split.
  - apply Hdiv.
    + split; [ vm_compute; reflexivity | ].
      apply Rabs_rel_sq; [ lra | lane_values; lra ].
    + split; rounds_to_nearest.
    + split; rounds_to_nearest.
    + rounds_to_nearest.
  - apply Hsqrt.
    + split; [ vm_compute; reflexivity | ].
      assert (Hs : 17320508 / 10000000 <= R_sqrt.sqrt (lane_R (elt (v threes) 0))
                   <= 17320509 / 10000000).
      { apply sqrt_between; lane_values; lra. }
      apply estimate_error_conv; [ lra | ].
      set (s := R_sqrt.sqrt (lane_R (elt (v threes) 0))) in *.
      apply Rabs_le. lane_values. lra.
    + repeat split; try (vm_compute; reflexivity);
        apply Rabs_rel_sq; try (unfold u24; lra); unfold u24; lane_values; lra.
    + repeat split; try (vm_compute; reflexivity);
        apply Rabs_rel_sq; try (unfold u24; lra); unfold u24; lane_values; lra.
    + rounds_to_nearest.
Defined.

End DerivedAccuracy.

(** ** Setting, clearing and toggling bits *)

(** X29: toggling the bits of a mask twice changes nothing; setting or
    clearing them is idempotent and overrides the other; toggling after
    clearing is setting; [clear_bits] is [czero], and [merge] sets in the
    cleared [f] the bits of the masked [t]. *)
Theorem bit_operations (m : v4int) (a t f : v4float) :
  toggle_bits m (toggle_bits m a) = a
  /\ set_bits m (set_bits m a) = set_bits m a
  /\ clear_bits m (clear_bits m a) = clear_bits m a
  /\ set_bits m (clear_bits m a) = set_bits m a
  /\ clear_bits m (set_bits m a) = clear_bits m a
  /\ toggle_bits m (clear_bits m a) = set_bits m a
  /\ toggle_bits m (set_bits m a) = clear_bits m a
  /\ clear_bits m a = czero m a
  /\ merge m t f = set_bits (notczero m t) (clear_bits m f).
Proof.
  unfold toggle_bits, set_bits, clear_bits, czero, notczero, merge.
  repeat split; try reflexivity; by_lanes; lane_bitwise; bit_cases.
Qed.
